(** * discord-giveaways: the giveaway lifecycle engine

    A shallow embedding of [src/Giveaway.js] (class [Giveaway]) and of the
    manager (class [GiveawaysManager]) together with the properties of the
    specification that concern them.

    Conventions of the embedding.
    - JavaScript numbers that the engine handles are millisecond timestamps,
      durations and counts: they are integers, modelled by [Z].
    - A property that may be [undefined] or [null] is an [option]; the
      truthiness tests of the source ([if (x)], [x || y], [!x]) are the
      functions [truthyZ], [truthyS], [js_or] below.
    - Giveaway objects are mutable and shared between the manager's
      collection and the running method ([this]): they live in a heap
      addressed by locations, the manager's collection is a list of
      locations.
    - A promise settles as [Resolved], [Rejected], or stays [Pending] when
      its executor returns or throws without calling [resolve]/[reject].
    - The chat platform (channels, messages, reactions, guild members,
      invites) is an explicit [World] value: the answers the platform gives
      while one operation runs.  A method is taken from its call to its end
      with nothing running in between; where what runs between the two
      halves of a method matters, the half that runs after the [await] is a
      definition of its own ([edit_resume], [invites_settled]).
    - A method that the source calls and no class defines is a method slot
      holding nothing: calling it throws ([call]).
    - Rendering of embeds and the sending and editing of messages do not
      touch the manager or the giveaway objects and are not modelled. *)

From Stdlib Require Import ZArith Lia List.
From stdpp Require Import base numbers strings option list.

Local Open Scope string_scope.
Local Open Scope list_scope.
Local Open Scope Z_scope.

(** ** JavaScript helpers *)

(** [Boolean(n)] for an integer number. *)
Definition truthyZ (n : Z) : bool := negb (Z.eqb n 0).

(** [Boolean(s)] for a string. *)
Definition truthyS (s : string) : bool := negb (String.eqb s "").

(** [a || b] where [a] may be undefined and [t] is its truthiness when
    defined: the result is [a] when it is truthy, [b] otherwise. *)
Definition js_or {A : Type} (t : A -> bool) (a b : option A) : option A :=
  match a with
  | Some x => if t x then Some x else b
  | None => b
  end.

Definition always {A : Type} (_ : A) : bool := true.
Definition id_bool (b : bool) : bool := b.

(** How a promise (or an [await]ed call) ends. *)
Inductive Outcome (A : Type) : Type :=
  | Resolved (a : A)
  | Rejected (reason : string)
  | Pending.
Arguments Resolved {A} a.
Arguments Rejected {A} reason.
Arguments Pending {A}.

(** What a call of a user-supplied function does. *)
Inductive Call (A : Type) : Type :=
  | Returns (a : A)
  | Throws (error : string).
Arguments Returns {A} a.
Arguments Throws {A} error.

(** ** The platform (discord.js) as far as the engine reads it *)

Definition Snowflake := string.
Definition Permission := string.

Record User := mkUser { u_id : Snowflake; u_bot : bool }.

Record GuildMember := mkMember { m_id : Snowflake; m_permissions : list Permission }.

(** [member.hasPermission(p)] *)
Definition hasPermission (m : GuildMember) (p : Permission) : bool :=
  existsb (String.eqb p) (m_permissions m).

Record MessageReaction := mkReaction {
  r_key : string;          (* key in [message.reactions] *)
  r_emoji_name : string;   (* [reaction.emoji.name] *)
  r_users : list User      (* the users the platform reports for it *)
}.

Record Guild := mkGuild { g_id : Snowflake; g_members : list GuildMember }.

Record Message := mkMessage {
  msg_id : Snowflake;
  msg_reactions : list MessageReaction;
  msg_client_user : Snowflake   (* [message.client.user.id] *)
}.

Record TextChannel := mkChannel {
  ch_id : Snowflake;
  ch_guild : Guild;
  ch_messages : list Message    (* the messages a fetch can still find *)
}.

Record Invite := mkInvite { inv_guild_name : string; inv_code : string }.

Record World := mkWorld {
  w_channels : list TextChannel;             (* [client.channels.cache] *)
  w_invites : list (string * Invite)         (* the invite links that resolve *)
}.

(** [client.channels.cache.get(id)] *)
Definition get_channel (w : World) (id : Snowflake) : option TextChannel :=
  find (fun c => String.eqb (ch_id c) id) (w_channels w).

(** [channel.messages.fetch(id).catch(() => {})] *)
Definition fetch_message (c : TextChannel) (id : Snowflake) : option Message :=
  find (fun m => String.eqb (msg_id m) id) (ch_messages c).

(** [guild.member(id)] *)
Definition guild_member (g : Guild) (id : Snowflake) : option GuildMember :=
  find (fun m => String.eqb (m_id m) id) (g_members g).

(** [client.fetchInvite(link)]: the invite, or a failure. *)
Definition fetchInvite (w : World) (link : string) : option Invite :=
  snd <$> find (fun p => String.eqb (fst p) link) (w_invites w).

(** ** discord.js [Collection]

    A [Collection] is a [Map]: keys are unique and kept in insertion order.
    The collection of users of a reaction is keyed by user id. *)

Definition Collection := list User.

(** [collection.set(u.id, u)]: a key already present keeps its place and
    takes the new value. *)
Fixpoint coll_set (u : User) (c : Collection) : Collection :=
  match c with
  | [] => [u]
  | v :: c' => if String.eqb (u_id v) (u_id u) then u :: c' else v :: coll_set u c'
  end.

(** [reaction.users.fetch()]: the collection built from the users the
    platform reports. *)
Definition fetchUsers (r : MessageReaction) : Collection :=
  fold_left (fun c u => coll_set u c) (r_users r) [].

(** [collection.delete(id)] *)
Definition coll_delete (id : Snowflake) (c : Collection) : Collection :=
  List.filter (fun u => negb (String.eqb (u_id u) id)) c.

(** [arr.splice(i, 1)[0]] together with the array left behind. *)
Definition splice1 {A : Type} (i : nat) (arr : list A) : option A * list A :=
  (arr !! i, take i arr ++ drop (S i) arr).

(** [Math.floor(Math.random() * len)]: a value below [len] (0 when [len]
    is 0), decided by the draw [d]. *)
Definition draw_index (d len : nat) : nat :=
  match len with O => O | S n => Nat.modulo d (S n) end.

(** The array built by [collection.random(amount)] of discord.js v12:
    [Array.from({length: amount}, () =>
       arr.splice(Math.floor(Math.random() * arr.length), 1)[0])].
    The [i]th entry of [draws] decides the [i]th random value.  A slot
    filled after the array ran out is [undefined]. *)
Fixpoint random_slots {A : Type} (amount : nat) (draws : list nat) (arr : list A)
  : list (option A) :=
  match amount with
  | O => []
  | S k =>
      let i := draw_index (hd O draws) (length arr) in
      let '(x, rest) := splice1 i arr in
      x :: random_slots k (tl draws) rest
  end.

(** The whole method, for a numeric [amount]:
    [if (arr.length === 0 || !amount) return [];] comes first.  An array of
    negative length is empty; [Array.from] refuses a length of 2^32 or more
    with a RangeError. *)
Definition coll_random {A : Type} (amount : Z) (draws : list nat) (arr : list A)
  : Call (list (option A)) :=
  if (Nat.eqb (length arr) 0 || negb (truthyZ amount))%bool then Returns []
  else if 2 ^ 32 <=? amount then Throws "RangeError: Invalid array length"
  else Returns (random_slots (Z.to_nat amount) draws arr).

(** ** Giveaway data

    [Requirements] groups the requirement properties, which the constructor
    copies one by one from the options ([rolereq] ... [bypassrole]). *)

Record Requirements := mkReq {
  rolereq : option bool;
  roleid : option (list string);
  joinedreq : option bool;
  joinedtime : option Z;
  agereq : option bool;
  agetime : option Z;
  messagereq : option bool;
  messageamount : option Z;
  isdrop : option bool;
  serverreq : option bool;
  serverlink : option (list string);
  serverslist : option string;
  bypassrole : option (list string)
}.

(** The template bundle [messages] is opaque to the engine. *)
Definition GiveawayMessages := list (string * string).

(** An exemption predicate supplied by the caller. *)
Definition Predicate := GuildMember -> Call bool.

(** [GiveawayData]: the object given to the constructor, kept as
    [this.options]; also the shape of a persisted record. *)
Record GiveawayData := mkData {
  d_messageID : option Snowflake;
  d_channelID : Snowflake;
  d_guildID : Snowflake;
  d_startAt : Z;
  d_endAt : Z;
  d_ended : bool;
  d_winnerCount : Z;
  d_prize : string;
  d_messages : GiveawayMessages;
  d_hostedBy : option string;
  d_embedColor : option string;
  d_embedColorEnd : option string;
  d_botsCanWin : option bool;
  d_exemptPermissions : option (list Permission);
  d_exemptMembers : option Predicate;
  d_reaction : option string;
  d_reqs : Requirements;
  (* given by [start], never read back and not part of [data] *)
  d_threeSecondsRemaining : option bool;
  d_threeSecondsRemaining2 : option bool;
  d_giveawayMessageWinner : option string;
  d_winnerRole : option string
}.

(** A [Giveaway] object: its own properties, as the constructor sets them. *)
Record Giveaway := mkGiveaway {
  prize : string;
  startAt : Z;
  endAt : Z;
  ended : bool;
  channelID : Snowflake;
  messageID : option Snowflake;
  guildID : Snowflake;
  winnerCount : Z;
  hostedBy : option string;
  messages : GiveawayMessages;
  options : GiveawayData;
  message : option Message;
  reqs : Requirements;
  (* set by the one-second tick only *)
  threeSecondsRemaining : bool;
  threeSecondsRemaining2 : bool
}.

(** [new Giveaway(manager, options)] *)
Definition new_Giveaway (o : GiveawayData) : Giveaway :=
  {| prize := d_prize o; startAt := d_startAt o; endAt := d_endAt o;
     ended := d_ended o; channelID := d_channelID o;
     messageID := d_messageID o; guildID := d_guildID o;
     winnerCount := d_winnerCount o; hostedBy := d_hostedBy o;
     messages := d_messages o; options := o; message := None;
     reqs := d_reqs o;
     threeSecondsRemaining := false; threeSecondsRemaining2 := false |}.

(** [get data()]: the persisted view.  The identity, timing, outcome and
    content properties are read from the object, the others from
    [this.options]. *)
Definition data (g : Giveaway) : GiveawayData :=
  {| d_messageID := messageID g; d_channelID := channelID g;
     d_guildID := guildID g; d_startAt := startAt g; d_endAt := endAt g;
     d_ended := ended g; d_winnerCount := winnerCount g; d_prize := prize g;
     d_messages := messages g; d_hostedBy := d_hostedBy (options g);
     d_embedColor := d_embedColor (options g);
     d_embedColorEnd := d_embedColorEnd (options g);
     d_botsCanWin := d_botsCanWin (options g);
     d_exemptPermissions := d_exemptPermissions (options g);
     d_exemptMembers := d_exemptMembers (options g);
     d_reaction := d_reaction (options g);
     d_reqs := d_reqs (options g);
     d_threeSecondsRemaining := None; d_threeSecondsRemaining2 := None;
     d_giveawayMessageWinner := None; d_winnerRole := None |}.

(** Assignments to the properties the engine writes. *)
Definition set_ended (v : bool) (g : Giveaway) : Giveaway :=
  mkGiveaway (prize g) (startAt g) (endAt g) v (channelID g) (messageID g)
    (guildID g) (winnerCount g) (hostedBy g) (messages g) (options g)
    (message g) (reqs g) (threeSecondsRemaining g) (threeSecondsRemaining2 g).

Definition set_message (v : option Message) (g : Giveaway) : Giveaway :=
  mkGiveaway (prize g) (startAt g) (endAt g) (ended g) (channelID g)
    (messageID g) (guildID g) (winnerCount g) (hostedBy g) (messages g)
    (options g) v (reqs g) (threeSecondsRemaining g) (threeSecondsRemaining2 g).

Definition set_messageID (v : option Snowflake) (g : Giveaway) : Giveaway :=
  mkGiveaway (prize g) (startAt g) (endAt g) (ended g) (channelID g) v
    (guildID g) (winnerCount g) (hostedBy g) (messages g) (options g)
    (message g) (reqs g) (threeSecondsRemaining g) (threeSecondsRemaining2 g).

Definition set_winnerCount (v : Z) (g : Giveaway) : Giveaway :=
  mkGiveaway (prize g) (startAt g) (endAt g) (ended g) (channelID g)
    (messageID g) (guildID g) v (hostedBy g) (messages g) (options g)
    (message g) (reqs g) (threeSecondsRemaining g) (threeSecondsRemaining2 g).

Definition set_prize (v : string) (g : Giveaway) : Giveaway :=
  mkGiveaway v (startAt g) (endAt g) (ended g) (channelID g) (messageID g)
    (guildID g) (winnerCount g) (hostedBy g) (messages g) (options g)
    (message g) (reqs g) (threeSecondsRemaining g) (threeSecondsRemaining2 g).

Definition set_endAt (v : Z) (g : Giveaway) : Giveaway :=
  mkGiveaway (prize g) (startAt g) v (ended g) (channelID g) (messageID g)
    (guildID g) (winnerCount g) (hostedBy g) (messages g) (options g)
    (message g) (reqs g) (threeSecondsRemaining g) (threeSecondsRemaining2 g).

Definition set_threeSecondsRemaining (v : bool) (g : Giveaway) : Giveaway :=
  mkGiveaway (prize g) (startAt g) (endAt g) (ended g) (channelID g)
    (messageID g) (guildID g) (winnerCount g) (hostedBy g) (messages g)
    (options g) (message g) (reqs g) v (threeSecondsRemaining2 g).

Definition set_threeSecondsRemaining2 (v : bool) (g : Giveaway) : Giveaway :=
  mkGiveaway (prize g) (startAt g) (endAt g) (ended g) (channelID g)
    (messageID g) (guildID g) (winnerCount g) (hostedBy g) (messages g)
    (options g) (message g) (reqs g) (threeSecondsRemaining g) v.

Definition req_set_serverslist (v : option string) (r : Requirements) : Requirements :=
  mkReq (rolereq r) (roleid r) (joinedreq r) (joinedtime r) (agereq r)
    (agetime r) (messagereq r) (messageamount r) (isdrop r) (serverreq r)
    (serverlink r) v (bypassrole r).

Definition set_serverslist (v : option string) (g : Giveaway) : Giveaway :=
  mkGiveaway (prize g) (startAt g) (endAt g) (ended g) (channelID g)
    (messageID g) (guildID g) (winnerCount g) (hostedBy g) (messages g)
    (options g) (message g) (req_set_serverslist v (reqs g))
    (threeSecondsRemaining g) (threeSecondsRemaining2 g).

(** ** The manager *)

(** [manager.options.default], from [Constants.js] merged with the options
    of the caller. *)
Record ManagerDefaults := mkDefaults {
  def_embedColor : option string;
  def_embedColorEnd : option string;
  def_reaction : option string;
  def_botsCanWin : option bool;
  def_exemptPermissions : option (list Permission);
  def_exemptMembers : option Predicate
}.

(** The storage file: absent, or its content as [JSON.parse] sees it. *)
Inductive StorageContent : Type :=
  | Document (records : list GiveawayData)   (* a JSON array of records *)
  | NotAnArray                               (* valid JSON, not an array *)
  | Truncated                                (* 'Unexpected end of JSON input' *)
  | Garbled (error : string).                (* any other syntax error *)

Inductive Event : Type :=
  | giveawayEnded (giveaway : nat) (winners : list (option GuildMember))
  | giveawayRerolled (giveaway : nat) (winners : list (option GuildMember)).

Record Manager := mkManager {
  ready : bool;
  heap : list Giveaway;            (* every [Giveaway] object created *)
  giveaways : list nat;            (* [this.giveaways]: references to objects *)
  storage : option StorageContent; (* the file [options.storage] *)
  defaults : ManagerDefaults;
  updateCountdownEvery : Z;
  emitted : list Event             (* signals given to the observers *)
}.

Definition set_heap (h : list Giveaway) (m : Manager) : Manager :=
  mkManager (ready m) h (giveaways m) (storage m) (defaults m)
    (updateCountdownEvery m) (emitted m).
Definition set_giveaways (gs : list nat) (m : Manager) : Manager :=
  mkManager (ready m) (heap m) gs (storage m) (defaults m)
    (updateCountdownEvery m) (emitted m).
Definition set_storage (s : option StorageContent) (m : Manager) : Manager :=
  mkManager (ready m) (heap m) (giveaways m) s (defaults m)
    (updateCountdownEvery m) (emitted m).
Definition set_ready (b : bool) (m : Manager) : Manager :=
  mkManager b (heap m) (giveaways m) (storage m) (defaults m)
    (updateCountdownEvery m) (emitted m).
Definition emit (e : Event) (m : Manager) : Manager :=
  mkManager (ready m) (heap m) (giveaways m) (storage m) (defaults m)
    (updateCountdownEvery m) (emitted m ++ [e]).

(** An assignment [this.p = v] to the object at [this]. *)
Definition update (this : nat) (f : Giveaway -> Giveaway) (m : Manager) : Manager :=
  match heap m !! this with
  | Some g => set_heap (<[this := f g]> (heap m)) m
  | None => m
  end.

(** [new Giveaway(...)]: a fresh object. *)
Definition alloc (g : Giveaway) (m : Manager) : nat * Manager :=
  (length (heap m), set_heap (heap m ++ [g]) m).

(** The objects of [this.giveaways], in order. *)
Definition objects (m : Manager) : list Giveaway :=
  omap (fun l => heap m !! l) (giveaways m).

(** [JSON.stringify] of a record: a property holding a function is left out. *)
Definition stringify (d : GiveawayData) : GiveawayData :=
  mkData (d_messageID d) (d_channelID d) (d_guildID d) (d_startAt d)
    (d_endAt d) (d_ended d) (d_winnerCount d) (d_prize d) (d_messages d)
    (d_hostedBy d) (d_embedColor d) (d_embedColorEnd d) (d_botsCanWin d)
    (d_exemptPermissions d) None (d_reaction d) (d_reqs d)
    (d_threeSecondsRemaining d) (d_threeSecondsRemaining2 d)
    (d_giveawayMessageWinner d) (d_winnerRole d).

(** [writeFileAsync(this.options.storage,
      JSON.stringify(this.giveaways.map((giveaway) => giveaway.data)))]:
    the common body of [saveGiveaway], [editGiveaway] and [deleteGiveaway],
    none of which reads its arguments. *)
Definition writeAll (m : Manager) : Manager :=
  set_storage (Some (Document (map (fun g => stringify (data g)) (objects m)))) m.

Definition saveGiveaway := writeAll.
Definition editGiveaway := writeAll.
Definition deleteGiveaway := writeAll.

(** ** Class [Giveaway]: getters *)

Section Getters.
Variable mo : ManagerDefaults.
Variable g : Giveaway.

(** [this.endAt - Date.now()] *)
Definition remainingTime (now : Z) : Z := endAt g - now.

Definition embedColor : option string :=
  js_or truthyS (d_embedColor (options g)) (def_embedColor mo).
Definition embedColorEnd : option string :=
  js_or truthyS (d_embedColorEnd (options g)) (def_embedColorEnd mo).

(** [this.options.reaction || this.manager.options.default.reaction] *)
Definition reaction : option string :=
  js_or truthyS (d_reaction (options g)) (def_reaction mo).

(** [this.options.botsCanWin || this.manager.options.default.botsCanWin] *)
Definition botsCanWin : option bool :=
  js_or id_bool (d_botsCanWin (options g)) (def_botsCanWin mo).

(** [this.options.exemptPermissions || ...default.exemptPermissions]:
    an array, even an empty one, is truthy. *)
Definition exemptPermissions : option (list Permission) :=
  js_or always (d_exemptPermissions (options g)) (def_exemptPermissions mo).

(** [async exemptMembers(member)]: the predicate of the record runs inside
    [try]/[catch], the predicate of the manager's defaults does not. *)
Definition exemptMembers (member : GuildMember) : Call bool :=
  match d_exemptMembers (options g) with
  | Some f =>
      match f member with
      | Returns result => Returns result
      | Throws _ => Returns false
      end
  | None =>
      match def_exemptMembers mo with
      | Some f => f member
      | None => Returns false
      end
  end.
End Getters.

(** [reactions.get(this.reaction) ||
     reactions.find(r => r.emoji.name === this.reaction)] *)
Definition find_reaction (msg : Message) (key : option string) : option MessageReaction :=
  match key with
  | None => None
  | Some k =>
      match find (fun r => String.eqb (r_key r) k) (msg_reactions msg) with
      | Some r => Some r
      | None => find (fun r => String.eqb (r_emoji_name r) k) (msg_reactions msg)
      end
  end.

(** The value returned by [ValidEntry]: an empty array or a number. *)
Inductive Entries : Type :=
  | EmptyArray
  | Count (n : nat).

(** The users that are not this process's own identity:
    [.filter(u => u.id !== this.message.client.user.id)] *)
Definition not_self (msg : Message) (u : User) : bool :=
  negb (String.eqb (u_id u) (msg_client_user msg)).

(** [async ValidEntry()] *)
Definition ValidEntry (w : World) (mo : ManagerDefaults) (g : Giveaway) : Call Entries :=
  match message g with
  | None => Returns EmptyArray
  | Some msg =>
      match find_reaction msg (reaction mo g) with
      | None => Returns EmptyArray
      | Some r =>
          match get_channel w (channelID g) with
          | None => Throws "TypeError"       (* [this.channel.guild] *)
          | Some _ => Returns (Count (length (List.filter (not_self msg) (fetchUsers r))))
          end
      end
  end.

(** The loop of [roll] over [users.array()]: a user whose member is exempt
    is deleted from [users]; an error of [exemptMembers] leaves the loop. *)
Fixpoint drop_exempt (mo : ManagerDefaults) (g : Giveaway) (guild : Guild)
    (snapshot : list User) (users : Collection) : Call Collection :=
  match snapshot with
  | [] => Returns users
  | u :: rest =>
      match guild_member guild (u_id u) with
      | None => Throws "TypeError"
      | Some member =>
          match exemptMembers mo g member with
          | Throws e => Throws e
          | Returns exemptMember =>
              drop_exempt mo g guild rest
                (if exemptMember then coll_delete (u_id u) users else users)
          end
      end
  end.

(** [!this.exemptPermissions.some(p => guild.member(u.id).hasPermission(p))] *)
Definition no_exempt_permission (guild : Guild) (perms : list Permission) (u : User) : bool :=
  negb (existsb (fun p =>
          match guild_member guild (u_id u) with
          | Some member => hasPermission member p
          | None => false
          end) perms).

(** The collection [users] of [roll] at the moment [.random] is called on
    it: the eligible set.  It is empty when [roll] returns before building
    it (no message, or no reaction on the message).  The last filter reads
    [this.exemptPermissions] in its callback, once per user left: with
    nobody left an undefined list is never read. *)
Definition eligible (w : World) (mo : ManagerDefaults) (g : Giveaway) : Call Collection :=
  match message g with
  | None => Returns []
  | Some msg =>
      match find_reaction msg (reaction mo g) with
      | None => Returns []
      | Some r =>
          match get_channel w (channelID g) with
          | None => Throws "TypeError"       (* [this.channel.guild] *)
          | Some c =>
              let guild := ch_guild c in
              let users :=
                List.filter (fun u => bool_decide (guild_member guild (u_id u) <> None))
                  (List.filter (not_self msg)
                     (List.filter (fun u => bool_decide (Some (u_bot u) = botsCanWin mo g))
                        (fetchUsers r))) in
              match drop_exempt mo g guild users users with
              | Throws e => Throws e
              | Returns users' =>
                  match exemptPermissions mo g with
                  | Some perms =>
                      Returns (List.filter (no_exempt_permission guild perms) users')
                  | None =>
                      match users' with
                      | [] => Returns []
                      | _ :: _ => Throws "TypeError"   (* [undefined.some] *)
                      end
                  end
              end
          end
      end
  end.

(** [guild.member(u)] for the guild of the giveaway's channel. *)
Definition resolve_member (w : World) (g : Giveaway) (u : User) : option GuildMember :=
  match get_channel w (channelID g) with
  | Some c => guild_member (ch_guild c) (u_id u)
  | None => None
  end.

(** [.filter(u => u)]: the slots that hold a user. *)
Definition defined {A : Type} (slots : list (option A)) : list A :=
  omap (fun x => x) slots.

(** [winnerCount || this.winnerCount] *)
Definition roll_amount (g : Giveaway) (count : option Z) : Z :=
  default (winnerCount g) (js_or truthyZ count (Some (winnerCount g))).

(** [async roll(winnerCount)]: the argument is [None] when the caller gives
    none ([end]) or [undefined]. *)
Definition roll (w : World) (mo : ManagerDefaults) (g : Giveaway)
    (count : option Z) (draws : list nat) : Call (list (option GuildMember)) :=
  match eligible w mo g with
  | Throws e => Throws e
  | Returns users =>
      match coll_random (roll_amount g count) draws users with
      | Throws e => Throws e
      | Returns slots => Returns (map (resolve_member w g) (defined slots))
      end
  end.

(** ** Class [Giveaway]: methods that change state

    A method runs on the object at location [this] of the manager's heap
    and returns the manager afterwards together with the way its promise
    settles. *)

(** [String(id)] inside the messages. *)
Definition show_id (id : option Snowflake) : string :=
  match id with Some s => s | None => "undefined" end.

Definition msg_unable_fetch (id : option Snowflake) : string :=
  "Unable to fetch message with ID " ++ show_id id ++ ".".
Definition msg_unable_channel (id : option Snowflake) : string :=
  "Unable to get the channel of the giveaway with message ID " ++ show_id id ++ ".".
Definition msg_already_ended_edit (id : option Snowflake) : string :=
  "Giveaway with message ID " ++ show_id id ++ " is already ended.".
Definition msg_already_ended (id : option Snowflake) : string :=
  "Giveaway with message ID " ++ show_id id ++ " is already ended".
Definition msg_not_ended (id : option Snowflake) : string :=
  "Giveaway with message ID " ++ show_id id ++ " is not ended.".
Definition msg_not_found (id : option Snowflake) : string :=
  "No giveaway found with ID " ++ show_id id ++ ".".

(** [!x] for a string property that may be undefined. *)
Definition falsy_id (id : option Snowflake) : bool :=
  match id with Some s => negb (truthyS s) | None => true end.

(** [this.manager.giveaways.filter((g) => g.messageID !== this.messageID)] *)
Definition without_messageID (id : option Snowflake) (m : Manager) : list nat :=
  List.filter (fun l =>
      match heap m !! l with
      | Some g => negb (bool_decide (messageID g = id))
      | None => false
      end) (giveaways m).

(** [async fetchMessage()].  The promise stays pending when the record has
    no message id ([return] without settling) and when [this.channel] is
    undefined (the executor throws). *)
Definition fetchMessage (w : World) (this : nat) (m : Manager) : Manager * Outcome Message :=
  match heap m !! this with
  | None => (m, Pending)
  | Some g =>
      if falsy_id (messageID g) then (m, Pending)
      else
        match get_channel w (channelID g) with
        | None => (m, Pending)
        | Some c =>
            match fetch_message c (show_id (messageID g)) with
            | None =>
                let m1 := set_giveaways (without_messageID (messageID g) m) m in
                (deleteGiveaway m1, Rejected (msg_unable_fetch (messageID g)))
            | Some msg =>
                (update this (set_message (Some msg)) m, Resolved msg)
            end
        end
  end.

(** [GiveawayEditOptions] *)
Record GiveawayEditOptions := mkEdit {
  newWinnerCount : option Z;
  newPrize : option string;
  addTime : option Z;
  setEndTimestamp : option Z
}.

(** [if (options.p) this.q = f(options.p)] *)
Definition assign_if {A : Type} (t : A -> bool) (p : option A)
    (f : A -> Giveaway -> Giveaway) (g : Giveaway) : Giveaway :=
  match p with
  | Some v => if t v then f v g else g
  | None => g
  end.

(** The four assignments of [edit], in the order of the source. *)
Definition apply_edit (o : GiveawayEditOptions) (g : Giveaway) : Giveaway :=
  let g1 := assign_if truthyZ (newWinnerCount o) set_winnerCount g in
  let g2 := assign_if truthyS (newPrize o) set_prize g1 in
  let g3 := assign_if truthyZ (addTime o) (fun d g' => set_endAt (endAt g' + d) g') g2 in
  assign_if truthyZ (setEndTimestamp o) set_endAt g3.

(** [edit], lines 405-416: what runs once the platform has answered the
    fetch asked for at line 405.  [edit] is suspended at that [await], and
    whatever was called meanwhile has run before this part does.  The test
    is on [this.message], which an earlier fetch may have set. *)
Definition edit_resume (w : World) (o : GiveawayEditOptions) (this : nat) (m : Manager)
  : Manager * Outcome nat :=
  match fetchMessage w this m with
  | (m1, Pending) => (m1, Pending)
  | (m1, _) =>
      match heap m1 !! this with
      | None => (m1, Pending)
      | Some g1 =>
          match message g1 with
          | None => (m1, Rejected (msg_unable_fetch (messageID g1)))
          | Some _ =>
              (editGiveaway (update this (apply_edit o) m1), Resolved this)
          end
      end
  end.

(** [edit(options = {})], run from its call to its end with nothing in
    between: the two tests of lines 399-404, then the rest. *)
Definition edit (w : World) (o : GiveawayEditOptions) (this : nat) (m : Manager)
  : Manager * Outcome nat :=
  match heap m !! this with
  | None => (m, Pending)
  | Some g =>
      if ended g then (m, Rejected (msg_already_ended_edit (messageID g)))
      else if bool_decide (get_channel w (channelID g) = None)
      then (m, Rejected (msg_unable_channel (messageID g)))
      else edit_resume w o this m
  end.

(** [end()].  It resolves with the winners, or with [undefined] ([None])
    when there is none.  An error thrown by [roll] or [ValidEntry] leaves
    the promise pending. *)
Definition end_ (w : World) (draws : list nat) (this : nat) (m : Manager)
  : Manager * Outcome (option (list (option GuildMember))) :=
  match heap m !! this with
  | None => (m, Pending)
  | Some g =>
      if ended g then (m, Rejected (msg_already_ended (messageID g)))
      else if bool_decide (get_channel w (channelID g) = None)
      then (m, Rejected (msg_unable_channel (messageID g)))
      else
        let m0 := update this (set_ended true) m in
        match fetchMessage w this m0 with
        | (m1, Pending) => (m1, Pending)
        | (m1, _) =>
            match heap m1 !! this with
            | None => (m1, Pending)
            | Some g1 =>
                match message g1 with
                | None => (m1, Rejected (msg_unable_fetch (messageID g1)))
                | Some _ =>
                    match roll w (defaults m1) g1 None draws with
                    | Throws _ => (m1, Pending)
                    | Returns winners =>
                        match ValidEntry w (defaults m1) g1 with
                        | Throws _ => (m1, Pending)
                        | Returns _ =>
                            let m2 := editGiveaway (emit (giveawayEnded this winners) m1) in
                            if (0 <? length winners)%nat
                            then (m2, Resolved (Some winners))
                            else (m2, Resolved None)
                        end
                    end
                end
            end
        end
  end.

(** [GiveawayRerollOptions]; the templates are not modelled. *)
Record GiveawayRerollOptions := mkReroll { rr_winnerCount : option Z }.

(** [reroll(options)] *)
Definition reroll (w : World) (o : GiveawayRerollOptions) (draws : list nat)
    (this : nat) (m : Manager) : Manager * Outcome (list (option GuildMember)) :=
  match heap m !! this with
  | None => (m, Pending)
  | Some g =>
      if negb (ended g) then (m, Rejected (msg_not_ended (messageID g)))
      else if bool_decide (get_channel w (channelID g) = None)
      then (m, Rejected (msg_unable_channel (messageID g)))
      else
        match fetchMessage w this m with
        | (m1, Pending) => (m1, Pending)
        | (m1, _) =>
            match heap m1 !! this with
            | None => (m1, Pending)
            | Some g1 =>
                match message g1 with
                | None => (m1, Rejected (msg_unable_fetch (messageID g1)))
                | Some _ =>
                    match roll w (defaults m1) g1 (rr_winnerCount o) draws with
                    | Throws _ => (m1, Pending)
                    | Returns winners => (m1, Resolved winners)
                    end
                end
            end
        end
  end.

(** ** Class [GiveawaysManager] *)

(** [this.giveaways.find((g) => g.messageID === messageID)] *)
Definition find_giveaway (id : option Snowflake) (m : Manager) : option nat :=
  find (fun l =>
      match heap m !! l with
      | Some g => bool_decide (messageID g = id)
      | None => false
      end) (giveaways m).

(** [end(messageID)] *)
Definition manager_end (w : World) (draws : list nat) (id : option Snowflake)
    (m : Manager) : Manager * Outcome (option (list (option GuildMember))) :=
  match find_giveaway id m with
  | None => (m, Rejected (msg_not_found id))
  | Some l => end_ w draws l m
  end.

(** [edit(messageID, options = {})] *)
Definition manager_edit (w : World) (id : option Snowflake) (o : GiveawayEditOptions)
    (m : Manager) : Manager * Outcome nat :=
  match find_giveaway id m with
  | None => (m, Rejected (msg_not_found id))
  | Some l => edit w o l m
  end.

(** A [Giveaway] object read as a [GiveawayData]: what [options.p] yields
    when [options] is itself a [Giveaway], as in [manager.reroll].  The
    properties [embedColor], [embedColorEnd], [reaction], [botsCanWin] and
    [exemptPermissions] are getters there and [exemptMembers] is the method. *)
Definition as_options (mo : ManagerDefaults) (g : Giveaway) : GiveawayData :=
  {| d_messageID := messageID g; d_channelID := channelID g;
     d_guildID := guildID g; d_startAt := startAt g; d_endAt := endAt g;
     d_ended := ended g; d_winnerCount := winnerCount g; d_prize := prize g;
     d_messages := messages g; d_hostedBy := hostedBy g;
     d_embedColor := embedColor mo g; d_embedColorEnd := embedColorEnd mo g;
     d_botsCanWin := botsCanWin mo g;
     d_exemptPermissions := exemptPermissions mo g;
     d_exemptMembers := Some (exemptMembers mo g);
     d_reaction := reaction mo g; d_reqs := reqs g;
     d_threeSecondsRemaining := Some (threeSecondsRemaining g);
     d_threeSecondsRemaining2 := Some (threeSecondsRemaining2 g);
     d_giveawayMessageWinner := None; d_winnerRole := None |}.

(** [reroll(messageID, options = {})]: the reroll runs on a new object built
    from the one found. *)
Definition manager_reroll (w : World) (id : option Snowflake)
    (o : GiveawayRerollOptions) (draws : list nat) (m : Manager)
  : Manager * Outcome unit :=
  match find_giveaway id m with
  | None => (m, Rejected (msg_not_found id))
  | Some l =>
      match heap m !! l with
      | None => (m, Pending)
      | Some giveawayData =>
          let '(copy, m1) := alloc (new_Giveaway (as_options (defaults m) giveawayData)) m in
          match reroll w o draws copy m1 with
          | (m2, Resolved winners) => (emit (giveawayRerolled copy winners) m2, Resolved tt)
          | (m2, Rejected e) => (m2, Rejected e)
          | (m2, Pending) => (m2, Pending)
          end
      end
  end.

(** A method looked up on an object of class [Giveaway]: [None] when the
    class defines no method of that name. *)
Definition Method (A : Type) : Type := option (Giveaway -> Call A).

(** [giveaway.f()]: calling what is not a function is a TypeError. *)
Definition call {A : Type} (f : Method A) (g : Giveaway) : Call A :=
  match f with
  | Some body => body g
  | None => Throws "TypeError: not a function"
  end.

(** [giveaway.winningChance]: the manager calls it at five places; class
    [Giveaway] defines no method of that name (and [EventEmitter], which it
    extends, has none). *)
Definition winningChance : Method string := None.

(** [winningChance(messageID)] of the manager.  The call
    [giveaway.winningChance()] is made in the executor of the promise: when
    it throws, neither [resolve] nor [reject] is called. *)
Definition manager_winningChance (w : World) (id : option Snowflake) (m : Manager)
  : Outcome string :=
  match find_giveaway id m with
  | None => Rejected (msg_not_found id)
  | Some l =>
      match heap m !! l with
      | None => Pending
      | Some giveaway =>
          match winningChance with
          | None => Pending
          | Some body =>
              match body giveaway with
              | Returns chance => Resolved chance
              | Throws e => Rejected e
              end
          end
      end
  end.

(** The requirement text of one invite link, appended to [serverslist] by
    [addserver] (which counts the line) or [adderror] (which does not). *)
Definition server_line (invite : Invite) : string :=
  "⚠️ Should be in [" ++ inv_guild_name invite ++ "](https://discord.gg/"
    ++ inv_code invite ++ ").".
Definition server_error_line : string :=
  "⚠️ Some of the server requirements doesn't work properly. Please make sure that the invite links are permanent.".

(** The callbacks [addserver] and [adderror] of one refresh, run on the
    links [settled] in the order in which the platform answered them (the
    callback of a refused lookup runs one turn of the job queue after the
    refusal): each appends its line to [text], after a line feed unless
    [linec] is still 0. *)
Fixpoint add_servers (w : World) (settled : list string) (linec : nat) (text : string)
  : string :=
  match settled with
  | [] => text
  | link :: rest =>
      let sep := if Nat.eqb linec 0 then "" else String (Ascii.ascii_of_nat 10) "" in
      match fetchInvite w link with
      | Some invite => add_servers w rest (S linec) (text ++ sep ++ server_line invite)
      | None => add_servers w rest linec (text ++ sep ++ server_error_line)
      end
  end.

(** [giveaway.serverslist += line] for each callback of one refresh, once
    the lookups have been answered, in the order [settled].  The callbacks
    test nothing: they write whatever became of the giveaway meanwhile, and
    nothing is saved. *)
Definition invites_settled (w : World) (settled : list string) (this : nat)
    (m : Manager) : Manager :=
  match heap m !! this with
  | None => m
  | Some g =>
      let text := default "undefined" (serverslist (reqs g)) in
      update this (set_serverslist (Some (add_servers w settled 0 text))) m
  end.

(** The part shared by [updateServerRequirement] and the callback of
    [_updateServerRequirement], from [giveaway.serverslist = ''] on.  The
    invites are asked for through [giveaway.message.client]: with links to
    resolve and no message the callback throws before [editGiveaway].  The
    lookups are answered later ([invites_settled]). *)
Definition refresh_serverslist (w : World) (this : nat) (m : Manager) : Manager :=
  match heap m !! this with
  | None => m
  | Some g =>
      let m1 := update this (set_serverslist (Some "")) m in
      match serverlink (reqs g) with
      | Some (link :: rest) =>
          match message g with
          | None => m1
          | Some _ => editGiveaway m1
          end
      | _ => editGiveaway m1
      end
  end.

(** The callback of [_updateServerRequirement] for one giveaway. *)
Definition updateServerRequirement_each (w : World) (this : nat) (m : Manager) : Manager :=
  match heap m !! this with
  | None => m
  | Some g =>
      if ended g then m
      else if bool_decide (get_channel w (channelID g) = None) then m
      else
        match fetchMessage w this m with
        | (m1, Pending) => m1
        | (m1, _) => refresh_serverslist w this m1
        end
  end.

(** [_updateServerRequirement()]: [forEach] over the array held by
    [this.giveaways] when the tick starts. *)
Definition _updateServerRequirement (w : World) (m : Manager) : Manager :=
  fold_left (fun m' l => updateServerRequirement_each w l m') (giveaways m) m.

(** [updateServerRequirement(giveaway)] *)
Definition updateServerRequirement (w : World) (now : Z) (draws : list nat)
    (this : nat) (m : Manager) : Manager :=
  match heap m !! this with
  | None => m
  | Some g =>
      if ended g then m
      else if bool_decide (get_channel w (channelID g) = None) then m
      else if remainingTime g now <=? 0
      then fst (manager_end w draws (messageID g) m)
      else
        match fetchMessage w this m with
        | (m1, Pending) => m1
        | (m1, _) => refresh_serverslist w this m1
        end
  end.

(** The callback of [_checkGiveaway] for one giveaway; [draws] feeds the
    selection if the tick ends the giveaway.  With a message at hand the
    callback goes on to [giveaway.winningChance()] and to rendering, which
    write nothing, whether they throw or not. *)
Definition _checkGiveaway_each (w : World) (now : Z) (draws : list nat)
    (this : nat) (m : Manager) : Manager :=
  match heap m !! this with
  | None => m
  | Some g =>
      if ended g then m
      else if threeSecondsRemaining g then m
      else if bool_decide (get_channel w (channelID g) = None) then m
      else if remainingTime g now <=? 0
      then fst (manager_end w draws (messageID g) m)
      else
        match fetchMessage w this m with
        | (m1, Pending) => m1
        | (m1, _) =>
            match heap m1 !! this with
            | None => m1
            | Some g1 =>
                match message g1 with
                | None => editGiveaway (update this (set_ended true) m1)
                | Some _ => m1
                end
            end
        end
  end.

(** [_checkGiveaway()] *)
Definition _checkGiveaway (w : World) (now : Z) (draws : nat -> list nat)
    (m : Manager) : Manager :=
  fold_left (fun m' l => _checkGiveaway_each w now (draws l) l m') (giveaways m) m.

(** [Array.isArray(a) && a.length > 1] *)
Definition several {A : Type} (a : option (list A)) : bool :=
  match a with Some (_ :: _ :: _) => true | _ => false end.

(** [async function embed()] of [lastGiveaway], as far as it can fail: the
    call of [giveaway.winningChance()], then the loop over several bypass
    roles, which reads [c] before the [let] that declares it. *)
Definition embed (g : Giveaway) : Call unit :=
  match call winningChance g with
  | Throws e => Throws e
  | Returns _ =>
      if several (bypassrole (reqs g)) then Throws "ReferenceError" else Returns tt
  end.

(** The callback of [lastGiveaway] for one giveaway.  The first edit of the
    final countdown awaits [embed()]: when that throws the callback stops,
    and the call of [end] that closes the countdown is never made.  The
    edits themselves are rendering only. *)
Definition lastGiveaway_each (w : World) (now : Z) (draws : list nat)
    (this : nat) (m : Manager) : Manager :=
  match heap m !! this with
  | None => m
  | Some g =>
      if ended g then m
      else if bool_decide (get_channel w (channelID g) = None) then m
      else if remainingTime g now <=? 0
      then fst (manager_end w draws (messageID g) m)
      else
        match fetchMessage w this m with
        | (m1, Pending) => m1
        | (m1, _) =>
            let m2 := if remainingTime g now <? 4000
                      then update this (set_threeSecondsRemaining true) m1 else m1 in
            match heap m2 !! this with
            | None => m2
            | Some g2 =>
                match message g2 with
                | None => m2
                | Some _ =>
                    if (threeSecondsRemaining g2 && negb (threeSecondsRemaining2 g2))%bool
                    then
                      let m3 := editGiveaway
                                  (update this (set_threeSecondsRemaining2 true) m2) in
                      if ended g2 then m3
                      else
                        match embed g2 with
                        | Throws _ => m3
                        | Returns _ => fst (manager_end w draws (messageID g2) m3)
                        end
                    else m2
                end
            end
        end
  end.

(** [lastGiveaway()] *)
Definition lastGiveaway (w : World) (now : Z) (draws : nat -> list nat)
    (m : Manager) : Manager :=
  fold_left (fun m' l => lastGiveaway_each w now (draws l) l m') (giveaways m) m.

(** [async _updateGiveaway(giveaway)], called at the end of [start], with
    the way its promise settles: it is rejected when the body throws, and
    it follows the promise of [end] it returns (whose rejection is caught). *)
Definition _updateGiveaway (w : World) (now : Z) (draws : list nat)
    (this : nat) (m : Manager) : Manager * Outcome unit :=
  match heap m !! this with
  | None => (m, Resolved tt)
  | Some g =>
      if ended g then (m, Resolved tt)
      else if bool_decide (get_channel w (channelID g) = None) then (m, Resolved tt)
      else if remainingTime g now <=? 0
      then
        match manager_end w draws (messageID g) m with
        | (m1, Pending) => (m1, Pending)
        | (m1, _) => (m1, Resolved tt)
        end
      else
        match fetchMessage w this m with
        | (m1, Pending) => (m1, Pending)
        | (m1, _) =>
            match heap m1 !! this with
            | None => (m1, Pending)
            | Some g1 =>
                match message g1 with
                | None => (editGiveaway (update this (set_ended true) m1), Resolved tt)
                | Some _ =>
                    match call winningChance g1 with
                    | Throws e => (m1, Rejected e)
                    | Returns _ =>
                        let m2 := updateServerRequirement w now draws this m1 in
                        if several (bypassrole (reqs g1))
                        then (m2, Rejected "ReferenceError")
                        else (m2, Resolved tt)
                    end
                end
            end
        end
  end.

(** A JavaScript number as far as [start] tells numbers apart: an integer
    or [NaN]. *)
Inductive JsNumber : Type :=
  | Num (n : Z)
  | NaN.

(** [GiveawayStartOptions]; [time] and [winnerCount] are declared numbers. *)
Record GiveawayStartOptions := mkStart {
  so_time : option JsNumber;
  so_prize : option string;
  so_winnerCount : option JsNumber;
  so_hostedBy : option string;
  so_messages : option GiveawayMessages;
  so_reaction : option string;
  so_botsCanWin : option bool;
  so_exemptPermissions : option (list Permission);
  so_exemptMembers : option Predicate;
  so_embedColor : option string;
  so_embedColorEnd : option string;
  so_reqs : Requirements;
  so_giveawayMessageWinner : option string;
  so_winnerRole : option string
}.

(** [!x] for a number that may be undefined *)
Definition falsy_number (x : option JsNumber) : bool :=
  match x with
  | None => true
  | Some NaN => true
  | Some (Num n) => negb (truthyZ n)
  end.

(** [isNaN(x)]: [undefined] converts to [NaN]. *)
Definition isNaN (x : option JsNumber) : bool :=
  match x with
  | None => true
  | Some NaN => true
  | Some (Num _) => false
  end.

(** [!x || isNaN(x)] *)
Definition not_a_number (x : option JsNumber) : bool :=
  (falsy_number x || isNaN x)%bool.

(** The integer of a number that passed [not_a_number]. *)
Definition number_value (x : option JsNumber) : Z :=
  match x with Some (Num n) => n | _ => 0 end.

(** The object literal given to [new Giveaway] by [start]; [startAt] and
    [endAt] come from two calls of [Date.now()]. *)
Definition start_data (now1 now2 : Z) (channel : TextChannel)
    (defaultGiveawayMessages : GiveawayMessages) (o : GiveawayStartOptions)
    (time winners : Z) (prize : string) : GiveawayData :=
  {| d_messageID := None; d_channelID := ch_id channel;
     d_guildID := g_id (ch_guild channel);
     d_startAt := now1; d_endAt := now2 + time; d_ended := false;
     d_winnerCount := winners; d_prize := prize;
     d_messages := default defaultGiveawayMessages (so_messages o);
     d_hostedBy := js_or truthyS (so_hostedBy o) None;
     d_embedColor := so_embedColor o; d_embedColorEnd := so_embedColorEnd o;
     d_botsCanWin := so_botsCanWin o;
     d_exemptPermissions := so_exemptPermissions o;
     d_exemptMembers := so_exemptMembers o;
     d_reaction := so_reaction o; d_reqs := so_reqs o;
     d_threeSecondsRemaining := Some false;
     d_threeSecondsRemaining2 := Some false;
     d_giveawayMessageWinner := so_giveawayMessageWinner o;
     d_winnerRole := so_winnerRole o |}.

(** [start(channel, options)].  [now1] and [now2] are the two readings of
    the clock of the constructor call, [now3] the reading of
    [_updateGiveaway]; [posted] is the id of the message [channel.send]
    resolves with, [None] when it rejects.  The texts of the rejections are
    given without their [(val=...)] suffix.  The promise stays pending when
    the executor throws or waits for ever: at the call of
    [giveaway.winningChance()] that follows the construction of the record,
    at a [bypassrole] of several roles (its loop reads [c] before the [let]
    that declares it), when [channel.send] fails, or in [_updateGiveaway]. *)
Definition start (w : World) (now1 now2 now3 : Z) (posted : option Snowflake)
    (draws : list nat) (defaultGiveawayMessages : GiveawayMessages)
    (channel : option TextChannel) (o : GiveawayStartOptions) (m : Manager)
  : Manager * Outcome nat :=
  if negb (ready m) then (m, Rejected "The manager is not ready yet.")
  else
    match channel with
    | None => (m, Rejected "channel is not a valid guildchannel.")
    | Some ch =>
        if negb (truthyS (ch_id ch))
        then (m, Rejected "channel is not a valid guildchannel.")
        else if not_a_number (so_time o)
        then (m, Rejected "options.time is not a number.")
        else if falsy_id (so_prize o)
        then (m, Rejected "options.prize is not a string.")
        else if not_a_number (so_winnerCount o)
        then (m, Rejected "options.winnerCount is not a number.")
        else
          let d := start_data now1 now2 ch defaultGiveawayMessages o
                     (number_value (so_time o)) (number_value (so_winnerCount o))
                     (default "" (so_prize o)) in
          let '(giveaway, m1) := alloc (new_Giveaway d) m in
          match call winningChance (new_Giveaway d) with
          | Throws _ => (m1, Pending)
          | Returns _ =>
              if several (bypassrole (reqs (new_Giveaway d))) then (m1, Pending)
              else
                match posted with
                | None => (m1, Pending)
                | Some id =>
                    let m2 := update giveaway (set_messageID (Some id)) m1 in
                    let m3 := set_giveaways (giveaways m2 ++ [giveaway]) m2 in
                    let m4 := saveGiveaway m3 in
                    match _updateGiveaway w now3 draws giveaway m4 with
                    | (m5, Resolved _) => (m5, Resolved giveaway)
                    | (m5, _) => (m5, Pending)
                    end
                end
          end
    end.

(** [getAllGiveaways()] *)
Definition getAllGiveaways (m : Manager) : Manager * Call (list GiveawayData) :=
  match storage m with
  | None => (set_storage (Some (Document [])) m, Returns [])
  | Some (Document giveaways) => (m, Returns giveaways)
  | Some NotAnArray =>
      (m, Throws "The storage file is not properly formatted (giveaways is not an array).")
  | Some Truncated =>
      (m, Throws "The storage file is not properly formatted (Unexpected end of JSON input).")
  | Some (Garbled e) => (m, Throws e)
  end.

(** [this.giveaways.push(new Giveaway(this, giveaway))] *)
Definition hydrate (m : Manager) (raw : GiveawayData) : Manager :=
  let '(l, m1) := alloc (new_Giveaway raw) m in
  set_giveaways (giveaways m1 ++ [l]) m1.

(** [_init()]: the timers it starts are the ticks above. *)
Definition _init (m : Manager) : Manager :=
  match getAllGiveaways m with
  | (m1, Returns rawGiveaways) => set_ready true (fold_left hydrate rawGiveaways m1)
  | (m1, Throws _) => m1
  end.

(** The users who attached the configured reaction, as [roll] and
    [ValidEntry] fetch them. *)
Definition reactors (mo : ManagerDefaults) (g : Giveaway) (msg : Message) : Collection :=
  match find_reaction msg (reaction mo g) with
  | Some r => fetchUsers r
  | None => []
  end.

(** [delete(messageID, doNotDeleteMessage)].  The promise resolves with
    [undefined]; the value carried here is the message on which
    [message.delete()] was called, if any. *)
Definition manager_delete (w : World) (id : option Snowflake)
    (doNotDeleteMessage : bool) (m : Manager) : Manager * Outcome (option Message) :=
  match find_giveaway id m with
  | None => (m, Rejected (msg_not_found id))
  | Some l =>
      match heap m !! l with
      | None => (m, Pending)
      | Some giveaway =>
          if bool_decide (get_channel w (channelID giveaway) = None)
          then (m, Rejected (msg_unable_channel (messageID giveaway)))
          else
            let finish (deleted : option Message) (m1 : Manager) :=
              (deleteGiveaway (set_giveaways (without_messageID id m1) m1),
               Resolved deleted) in
            if doNotDeleteMessage then finish None m
            else
              match fetchMessage w l m with
              | (m1, Pending) => (m1, Pending)
              | (m1, _) => finish (heap m1 !! l ≫= message) m1
              end
      end
  end.

(** [ValidEntries(messageID)] *)
Definition manager_ValidEntries (w : World) (id : option Snowflake) (m : Manager)
  : Outcome Entries :=
  match find_giveaway id m with
  | None => Rejected (msg_not_found id)
  | Some l =>
      match heap m !! l with
      | None => Pending
      | Some giveaway =>
          match ValidEntry w (defaults m) giveaway with
          | Returns entries => Resolved entries
          | Throws e => Rejected e
          end
      end
  end.

(** ** The countdown text: [get content()]

    The getter reads [this.remainingTime], hence the clock, six times: once
    to choose the rounding and once for each part.  [Math.floor(x / u)] is
    [Z.div], [Math.ceil(x / u)] its mirror image, [%] is [Z.rem]. *)

Definition js_floor (x u : Z) : Z := x / u.
Definition js_ceil (x u : Z) : Z := - ((- x) / u).

(** [roundTowardsZero(x / u)] where [first] is the reading that chose
    between [Math.floor] and [Math.ceil]. *)
Definition roundTowardsZero (first x u : Z) : Z :=
  if 0 <? first then js_floor x u else js_ceil x u.

Record TimeParts := mkParts {
  p_weeks : Z; p_days : Z; p_hours : Z; p_minutes : Z; p_seconds : Z
}.

(** The five numbers of [content], the increment of a zero [seconds]
    included; [r0] ... [r5] are the six readings of [remainingTime]. *)
Definition content_parts (r0 r1 r2 r3 r4 r5 : Z) : TimeParts :=
  let seconds := Z.rem (roundTowardsZero r0 r5 1000) 60 in
  {| p_weeks := roundTowardsZero r0 r1 604800000;
     p_days := Z.rem (roundTowardsZero r0 r2 86400000) 7;
     p_hours := Z.rem (roundTowardsZero r0 r3 3600000) 24;
     p_minutes := Z.rem (roundTowardsZero r0 r4 60000) 60;
     p_seconds := if seconds =? 0 then seconds + 1 else seconds |}.

(** [this.messages.units].  The unit names are taken to be ASCII, so that
    a character of the string is one code unit of the JavaScript string. *)
Record Units := mkUnits {
  pluralS : bool;
  unit_weeks : string; unit_days : string; unit_hours : string;
  unit_minutes : string; unit_seconds : string
}.

(** [name.endsWith('s')] *)
Definition endsWith_s (name : string) : bool :=
  match String.get (String.length name - 1) name with
  | Some c => Ascii.eqb c (Ascii.ascii_of_nat 115)   (* the letter s *)
  | None => false
  end.

(** [count < 2 && (units.pluralS || name.endsWith('s'))
       ? name.substr(0, name.length - 1) : name] *)
Definition unit_for (units : Units) (count : Z) (name : string) : string :=
  if ((count <? 2) && (pluralS units || endsWith_s name))%bool
  then String.substring 0 (String.length name - 1) name
  else name.

(** The variable [pattern] of [content]: a segment for each part that is
    positive, and the seconds. *)
Definition content_pattern (units : Units) (p : TimeParts) : string :=
  (if 0 <? p_weeks p
   then "{weeks} " ++ unit_for units (p_weeks p) (unit_weeks units) ++ ", " else "")
  ++ (if 0 <? p_days p
      then "{days} " ++ unit_for units (p_days p) (unit_days units) ++ ", " else "")
  ++ (if 0 <? p_hours p
      then "{hours} " ++ unit_for units (p_hours p) (unit_hours units) ++ ", " else "")
  ++ (if 0 <? p_minutes p
      then "{minutes} " ++ unit_for units (p_minutes p) (unit_minutes units) ++ ", "
      else "")
  ++ "{seconds} " ++ unit_for units (p_seconds p) (unit_seconds units).

(** [get giveawayDuration()] *)
Definition giveawayDuration (g : Giveaway) : Z := endAt g - startAt g.

(** The reaction [r] is the one a message carries for the name [k]: the
    first under the key [k] or, when no key is [k], the first whose emoji
    has the name [k]. *)
Definition attached (msg : Message) (k : string) (r : MessageReaction) : Prop :=
  (exists pre post, msg_reactions msg = pre ++ r :: post /\ r_key r = k /\
                    Forall (fun r' => r_key r' <> k) pre) \/
  (Forall (fun r' => r_key r' <> k) (msg_reactions msg) /\
   exists pre post, msg_reactions msg = pre ++ r :: post /\ r_emoji_name r = k /\
                    Forall (fun r' => r_emoji_name r' <> k) pre).

(** ** Storage in step with the collection *)

(** The file holds the persisted view of the objects of the collection. *)
Definition in_sync (m : Manager) : Prop :=
  storage m = Some (Document (map (fun g => stringify (data g)) (objects m))).

(** The member of a user is exempt: the predicate returned [true]. *)
Definition exempt (mo : ManagerDefaults) (g : Giveaway) (guild : Guild) (u : User) : Prop :=
  exists member, guild_member guild (u_id u) = Some member /\
                 exemptMembers mo g member = Returns true.

(** A user passes every filter of [roll]: the bot policy, not this
    process, a member of the guild, not exempt by the predicate, holding
    none of the exempt permissions, of which there is a list. *)
Definition passes (mo : ManagerDefaults) (g : Giveaway) (msg : Message)
    (guild : Guild) (u : User) : Prop :=
  Some (u_bot u) = botsCanWin mo g /\
  u_id u <> msg_client_user msg /\
  exists member perms,
    guild_member guild (u_id u) = Some member /\
    exemptMembers mo g member = Returns false /\
    exemptPermissions mo g = Some perms /\
    forall p, p ∈ perms -> hasPermission member p = false.

(** ** What an operation may change

    [record_of g] is the object without its cached message handle, which is
    transient state and no field of the record. *)
Definition record_of (g : Giveaway) : Giveaway := set_message None g.

(** The properties only [start] and [edit] assign. *)
Definition terms (g : Giveaway) :=
  (prize g, startAt g, endAt g, winnerCount g, channelID g, messageID g,
   guildID g, hostedBy g, messages g, options g).

(** Two states of an object that differ in the cached handle at most. *)
Definition same_record (g g' : Giveaway) : Prop := record_of g' = record_of g.

(** An ended record stays as it is. *)
Definition frozen (g g' : Giveaway) : Prop :=
  ended g = true -> record_of g' = record_of g.

(** A step that is not an edit: moreover the terms stay as they are. *)
Definition advances (g g' : Giveaway) : Prop :=
  frozen g g' /\ terms g' = terms g.

(** Every object of the heap is still there and related to what it was. *)
Definition heap_rel (R : Giveaway -> Giveaway -> Prop) (m m' : Manager) : Prop :=
  forall l g, heap m !! l = Some g -> exists g', heap m' !! l = Some g' /\ R g g'.

(** The state a failed fetch leaves behind when [end] has marked the
    record: ended, pruned from the collection and from the file. *)
Definition ended_and_pruned (this : nat) (id : Snowflake) (m' : Manager) : Prop :=
  (exists g', heap m' !! this = Some g' /\ ended g' = true) /\
  (this ∉ giveaways m') /\
  (forall l gl, l ∈ giveaways m' -> heap m' !! l = Some gl -> messageID gl <> Some id) /\
  storage m' = Some (Document (map (fun x => stringify (data x)) (objects m'))).

(** The value a truthy option assigns, the old value otherwise. *)
Definition assigned {A : Type} (t : A -> bool) (p : option A) (old : A) : A :=
  match p with Some v => if t v then v else old | None => old end.

(** ** Persisted records *)

(** What [saveAll] writes for a record that [loadAll] read. *)
Definition resaved (r : GiveawayData) : GiveawayData :=
  stringify (data (new_Giveaway r)).

(** Two records agree on every persisted field (a function is never
    persisted, so [exemptMembers] is none of them). *)
Definition same_persisted_fields (r r' : GiveawayData) : Prop :=
  d_messageID r' = d_messageID r /\ d_channelID r' = d_channelID r /\
  d_guildID r' = d_guildID r /\ d_startAt r' = d_startAt r /\
  d_endAt r' = d_endAt r /\ d_ended r' = d_ended r /\
  d_winnerCount r' = d_winnerCount r /\ d_prize r' = d_prize r /\
  d_messages r' = d_messages r /\ d_hostedBy r' = d_hostedBy r /\
  d_embedColor r' = d_embedColor r /\ d_embedColorEnd r' = d_embedColorEnd r /\
  d_botsCanWin r' = d_botsCanWin r /\
  d_exemptPermissions r' = d_exemptPermissions r /\
  d_reaction r' = d_reaction r /\ d_reqs r' = d_reqs r.

(** Every reference of the collection points into the heap. *)
Definition valid_refs (m : Manager) : Prop :=
  Forall (fun l => (l < length (heap m))%nat) (giveaways m).

(** ** Operations in sequence

    The calls that reach a giveaway after it was created: the public
    methods of the manager and of the giveaway, and the ticks of the
    scheduler.  Each step comes with the platform as it is at that time,
    and runs from its call to its end before the next step is called. *)
Inductive Operation : Type :=
  | op_edit (id : option Snowflake) (o : GiveawayEditOptions)
  | op_giveaway_edit (this : nat) (o : GiveawayEditOptions)
  | op_end (id : option Snowflake) (draws : list nat)
  | op_giveaway_end (this : nat) (draws : list nat)
  | op_reroll (id : option Snowflake) (o : GiveawayRerollOptions) (draws : list nat)
  | op_giveaway_reroll (this : nat) (o : GiveawayRerollOptions) (draws : list nat)
  | op_checkGiveaway (now : Z) (draws : nat -> list nat)
  | op_lastGiveaway (now : Z) (draws : nat -> list nat)
  | op_updateServerRequirement
  | op_updateGiveaway (this : nat) (now : Z) (draws : list nat).

Definition run (w : World) (op : Operation) (m : Manager) : Manager :=
  match op with
  | op_edit id o => (manager_edit w id o m).1
  | op_giveaway_edit this o => (edit w o this m).1
  | op_end id draws => (manager_end w draws id m).1
  | op_giveaway_end this draws => (end_ w draws this m).1
  | op_reroll id o draws => (manager_reroll w id o draws m).1
  | op_giveaway_reroll this o draws => (reroll w o draws this m).1
  | op_checkGiveaway now draws => _checkGiveaway w now draws m
  | op_lastGiveaway now draws => lastGiveaway w now draws m
  | op_updateServerRequirement => _updateServerRequirement w m
  | op_updateGiveaway this now draws => (_updateGiveaway w now draws this m).1
  end.

Definition run_all (steps : list (World * Operation)) (m : Manager) : Manager :=
  fold_left (fun m' step => run step.1 step.2 m') steps m.

(** ** A sample platform

    One channel with one announcement; five users reacted (one of them
    twice in the platform's answer), among them the bot itself and a user
    who has left the guild. *)
Module Sample.
Definition users : list User :=
  [mkUser "1" false; mkUser "2" false; mkUser "bot" true;
   mkUser "3" false; mkUser "2" false; mkUser "9" false].
Definition tada : MessageReaction := mkReaction "tada" "tada" users.
Definition announcement : Message := mkMessage "m1" [tada] "bot".
Definition guild : Guild :=
  mkGuild "g" [mkMember "1" []; mkMember "2" ["ADMINISTRATOR"];
               mkMember "3" []; mkMember "bot" []].
Definition channel : TextChannel := mkChannel "c1" guild [announcement].
(** The same channel after the announcement was deleted. *)
Definition channel_gone : TextChannel := mkChannel "c1" guild [].
Definition world : World := mkWorld [channel] [].
Definition world_gone : World := mkWorld [channel_gone] [].
Definition manager_defaults : ManagerDefaults :=
  mkDefaults None None (Some "tada") (Some false) (Some []) None.
(** An exemption predicate that fails on every member. *)
Definition failing : Predicate := fun _ => Throws "boom".
Definition failing_defaults : ManagerDefaults :=
  mkDefaults None None (Some "tada") (Some false) (Some []) (Some failing).
Definition no_reqs : Requirements :=
  mkReq None None None None None None None None None None None None None.
Definition record : GiveawayData :=
  mkData (Some "m1") "c1" "g" 1000 11000 false 2 "Free Steam Key" []
    None None None None None None None no_reqs None None None None.
(** The hydrated object, before and after a successful fetch. *)
Definition fresh : Giveaway := new_Giveaway record.
Definition fetched : Giveaway := set_message (Some announcement) fresh.
(** A fetched giveaway whose own record carries the failing predicate. *)
Definition fetched_failing : Giveaway :=
  set_message (Some announcement)
    (new_Giveaway
       (mkData (Some "m1") "c1" "g" 1000 11000 false 2 "Free Steam Key" []
          None None None None None (Some failing) None no_reqs
          None None None None)).
Definition manager : Manager :=
  mkManager true [fresh] [0%nat] (Some (Document [record])) manager_defaults 5000 [].
(** The same giveaway after it ended. *)
Definition finished : Giveaway := set_ended true fetched.
Definition manager_ended : Manager :=
  mkManager true [finished] [0%nat] (Some (Document [record])) manager_defaults 5000 [].
(** A manager that is ready and holds no giveaway, and one that has not
    loaded its storage file yet. *)
Definition manager_empty : Manager :=
  mkManager true [] [] (Some (Document [])) manager_defaults 5000 [].
Definition manager_booting : Manager :=
  mkManager false [] [] (Some (Document [record])) manager_defaults 5000 [].
Definition start_options : GiveawayStartOptions :=
  mkStart (Some (Num 10000)) (Some "Free Steam Key") (Some (Num 1)) None None
    None None None None None None no_reqs None None.
Definition manager_fetched : Manager :=
  mkManager true [fetched] [0%nat] (Some (Document [record])) manager_defaults 5000 [].
End Sample.

(** The collection after a step holds giveaways it held before, in the
    same order. *)
Definition shrinks (m m' : Manager) : Prop :=
  giveaways m' `sublist_of` giveaways m.

(** The inputs [start] turns down. *)
Definition start_refused (channel : option TextChannel) (o : GiveawayStartOptions)
    (m : Manager) : Prop :=
  ready m = false \/ channel = None \/
  (exists ch, channel = Some ch /\ ch_id ch = "") \/
  so_time o = None \/ so_time o = Some (Num 0) \/ so_time o = Some NaN \/
  so_prize o = None \/ so_prize o = Some "" \/
  so_winnerCount o = None \/ so_winnerCount o = Some (Num 0) \/
  so_winnerCount o = Some NaN.

(** ** More sample states *)
Module Cases.
(** A record that never got its message id. *)
Definition unposted_record : GiveawayData :=
  mkData None "c1" "g" 1000 11000 false 2 "Free Steam Key" []
    None None None None None None None Sample.no_reqs None None None None.
Definition unposted : Giveaway := new_Giveaway unposted_record.
Definition manager_unposted : Manager :=
  mkManager true [unposted] [0%nat] (Some (Document [unposted_record]))
    Sample.manager_defaults 5000 [].
(** Two giveaways, the second with another announcement. *)
Definition second_record : GiveawayData :=
  mkData (Some "m2") "c1" "g" 2000 12000 false 1 "Nitro" []
    None None None None None None None Sample.no_reqs None None None None.
Definition manager_two : Manager :=
  mkManager true [Sample.fresh; new_Giveaway second_record] [0%nat; 1%nat]
    (Some (Document [Sample.record; second_record])) Sample.manager_defaults 5000 [].
(** Options with a negative winner count. *)
Definition start_negative : GiveawayStartOptions :=
  mkStart (Some (Num 10000)) (Some "Free Steam Key") (Some (Num (-1))) None None
    None None None None None None Sample.no_reqs None None.
(** The announcement with no reaction on it, and a platform that no longer
    knows the channel. *)
Definition silent : Message := mkMessage "m1" [] "bot".
Definition fetched_silent : Giveaway := set_message (Some silent) Sample.fresh.
Definition world_without_channel : World := mkWorld [] [].
(** The sample manager after a requirement refresh emptied the text. *)
Definition manager_refreshed : Manager :=
  refresh_serverslist Sample.world 0 Sample.manager_fetched.
End Cases.

(** * Properties *)

(** ** Collections *)

Section CollectionFacts.

Lemma filter_sublist {A : Type} (p : A -> bool) (l : list A) :
  List.filter p l `sublist_of` l.
Proof.
  induction l as [|x l IH]; simpl; [constructor|].
  destruct (p x); [by apply sublist_skip | by apply sublist_cons].
Qed.

Lemma submseteq_NoDup {A : Type} (k l : list A) :
  k ⊆+ l -> NoDup l -> NoDup k.
Proof.
  intros Hs Hl. apply submseteq_Permutation in Hs as [k' Hp].
  rewrite Hp in Hl. by apply NoDup_app in Hl as [? _].
Qed.

Lemma coll_set_keys (u : User) (c : Collection) (x : Snowflake) :
  x ∈ map u_id (coll_set u c) -> x = u_id u \/ x ∈ map u_id c.
Proof.
  induction c as [|v c IH]; simpl.
  - intros H. apply list_elem_of_singleton in H. by left.
  - destruct (String.eqb (u_id v) (u_id u)) eqn:E; simpl; intros H.
    + apply elem_of_cons in H as [->|H]; [by left|].
      right. by apply elem_of_cons; right.
    + apply elem_of_cons in H as [->|H].
      * right. by apply elem_of_cons; left.
      * destruct (IH H) as [->|H']; [by left|].
        right. by apply elem_of_cons; right.
Qed.

Lemma coll_set_NoDup (u : User) (c : Collection) :
  NoDup (map u_id c) -> NoDup (map u_id (coll_set u c)).
Proof.
  induction c as [|v c IH]; simpl; intros H.
  - apply NoDup_singleton.
  - apply NoDup_cons in H as [Hv Hc].
    destruct (String.eqb (u_id v) (u_id u)) eqn:E; simpl.
    + apply String.eqb_eq in E. rewrite <- E. by apply NoDup_cons.
    + apply NoDup_cons. split; [|by apply IH].
      intros Hin. apply coll_set_keys in Hin as [Heq|Hin]; [|done].
      rewrite Heq, String.eqb_refl in E. discriminate.
Qed.

(** The keys of a fetched user collection are pairwise distinct. *)
Lemma fetchUsers_NoDup (r : MessageReaction) :
  NoDup (map u_id (fetchUsers r)).
Proof.
  unfold fetchUsers.
  assert (H : forall us c, NoDup (map u_id c) ->
            NoDup (map u_id (fold_left (fun c u => coll_set u c) us c))).
  { induction us as [|u us IH]; simpl; intros c Hc; [done|].
    apply IH. by apply coll_set_NoDup. }
  apply H. constructor.
Qed.

(** The slots of [random] that hold a value form a sub-multiset of the
    array, of the size asked for or of the size of the array. *)
Lemma random_slots_S {A : Type} (k : nat) (draws : list nat) (arr : list A) :
  random_slots (S k) draws arr =
  arr !! draw_index (hd O draws) (length arr)
    :: random_slots k (tl draws) (delete (draw_index (hd O draws) (length arr)) arr).
Proof. simpl. unfold splice1. by rewrite delete_take_drop. Qed.

Lemma draw_index_lt (d len : nat) : (0 < len)%nat -> (draw_index d len < len)%nat.
Proof.
  destruct len as [|n]; [lia|]. intros _. unfold draw_index.
  apply Nat.mod_upper_bound. lia.
Qed.

Lemma random_slots_nil {A : Type} (amount : nat) (draws : list nat) :
  defined (random_slots amount draws (@nil A)) = [].
Proof.
  revert draws. induction amount as [|k IH]; intros draws; [done|].
  rewrite random_slots_S. simpl. apply IH.
Qed.

(** The slots of [random] that hold a value form a sub-multiset of the
    array, of the size asked for or of the size of the array. *)
Lemma random_slots_spec {A : Type} (amount : nat) :
  forall (draws : list nat) (arr : list A),
    defined (random_slots amount draws arr) ⊆+ arr /\
    length (defined (random_slots amount draws arr)) = Nat.min amount (length arr).
Proof.
  induction amount as [|k IH]; intros draws arr.
  - split; [apply submseteq_nil_l | done].
  - destruct (decide (arr = [])) as [->|Hne].
    + rewrite random_slots_nil. split; [done | simpl; lia].
    + rewrite random_slots_S.
      set (i := draw_index (hd O draws) (length arr)).
      assert (Hi : (i < length arr)%nat).
      { apply draw_index_lt. destruct arr; [done | simpl; lia]. }
      destruct (lookup_lt_is_Some_2 arr i Hi) as [x Hx].
      rewrite Hx. destruct (IH (tl draws) (delete i arr)) as [Hs Hl].
      change (defined (Some x :: ?l)) with (x :: defined l). split.
      * rewrite (delete_Permutation arr i x Hx) at 2.
        by apply submseteq_skip.
      * rewrite length_cons, Hl, length_delete by (by exists x). lia.
Qed.

End CollectionFacts.

(** ** The eligible set *)

Section EligibleFacts.
Variable w : World.
Variable mo : ManagerDefaults.
Variable g : Giveaway.

Lemma drop_exempt_sublist (guild : Guild) (snapshot : list User) :
  forall users users',
    drop_exempt mo g guild snapshot users = Returns users' ->
    users' `sublist_of` users.
Proof.
  induction snapshot as [|u rest IH]; simpl; intros users users' H.
  - by inversion H.
  - destruct (guild_member guild (u_id u)); [|discriminate].
    destruct (exemptMembers mo g _) as [[|]|]; [| |discriminate].
    + etrans; [by apply IH | apply filter_sublist].
    + by apply IH.
Qed.

(** An eligible set is either empty or carved out of the reactors that
    are not this process and are members of the guild. *)
Lemma eligible_inv (el : Collection) :
  eligible w mo g = Returns el ->
  el = [] \/
  exists msg c,
    message g = Some msg /\ get_channel w (channelID g) = Some c /\
    el `sublist_of`
      List.filter (fun u => bool_decide (guild_member (ch_guild c) (u_id u) <> None))
        (List.filter (not_self msg) (reactors mo g msg)).
Proof.
  unfold eligible, reactors. intros H.
  destruct (message g) as [msg|]; [|left; by inversion H].
  destruct (find_reaction msg (reaction mo g)) as [r|] eqn:Er;
    [|left; by inversion H].
  destruct (get_channel w (channelID g)) as [c|] eqn:Ec; [|discriminate].
  destruct (drop_exempt _ _ _ _ _) as [users'|] eqn:Ed; [|discriminate].
  destruct (exemptPermissions mo g) as [perms|];
    [|destruct users'; [left; by inversion H | discriminate]].
  inversion H; subst el. right. exists msg, c.
  split; [done|]. split; [done|]. rewrite Er.
  etrans; [apply filter_sublist|].
  etrans; [by eapply drop_exempt_sublist|].
  assert (Hmono : forall (p : User -> bool) (l1 l2 : list User),
             l1 `sublist_of` l2 -> List.filter p l1 `sublist_of` List.filter p l2).
  { intros p l1 l2 Hs. induction Hs as [|x l1 l2 _ IH|x l1 l2 _ IH]; simpl.
    - constructor.
    - destruct (p x); [by apply sublist_skip | done].
    - destruct (p x); [by apply sublist_cons | done]. }
  apply Hmono, Hmono, filter_sublist.
Qed.

Lemma eligible_NoDup (el : Collection) :
  eligible w mo g = Returns el -> NoDup (map u_id el).
Proof.
  intros H. destruct (eligible_inv el H) as [->|(msg & c & _ & _ & Hs)].
  - constructor.
  - assert (Hs' : el `sublist_of` reactors mo g msg).
    { etrans; [exact Hs|]. etrans; apply filter_sublist. }
    apply (sublist_NoDup _ (map u_id (reactors mo g msg))).
    + unfold reactors. destruct (find_reaction _ _); [apply fetchUsers_NoDup|constructor].
    + by apply (fmap_sublist u_id).
Qed.

Lemma resolve_member_id (u : User) (member : GuildMember) :
  resolve_member w g u = Some member -> m_id member = u_id u.
Proof.
  unfold resolve_member, guild_member.
  destruct (get_channel w (channelID g)); [|discriminate].
  intros H. apply find_some in H as [_ H]. by apply String.eqb_eq in H.
Qed.

(** Every eligible user resolves to a member of the guild. *)
Lemma eligible_members (el : Collection) :
  eligible w mo g = Returns el ->
  Forall (fun u => is_Some (resolve_member w g u)) el.
Proof.
  intros H. destruct (eligible_inv el H) as [->|(msg & c & _ & Ec & Hs)]; [done|].
  apply Forall_forall. intros u Hu.
  apply sublist_submseteq in Hs. apply (elem_of_submseteq _ _ _ Hu) in Hs.
  apply list_elem_of_In, filter_In in Hs as [_ Hs].
  apply bool_decide_eq_true in Hs. unfold resolve_member. rewrite Ec.
  by destruct (guild_member (ch_guild c) (u_id u)).
Qed.

(** Users that resolve are mapped to members with the same ids. *)
Lemma resolve_all (us : list User) :
  Forall (fun u => is_Some (resolve_member w g u)) us ->
  exists members, map (resolve_member w g) us = map Some members /\
                  map m_id members = map u_id us /\
                  Forall2 (fun u m => resolve_member w g u = Some m) us members.
Proof.
  induction us as [|u us IH]; intros Hall; [by exists []|].
  apply Forall_cons in Hall as [[member Er] Hall].
  destruct (IH Hall) as (members & Hm & Hid & Hall2).
  exists (member :: members). simpl. rewrite Er, Hm, Hid.
  rewrite (resolve_member_id u member Er). by repeat split; [constructor].
Qed.

End EligibleFacts.

(** ** Winner selection *)

(** What [random] returns, when it returns. *)
Lemma coll_random_spec {A : Type} (amount : Z) (draws : list nat) (arr : list A)
    (slots : list (option A)) :
  coll_random amount draws arr = Returns slots ->
  defined slots ⊆+ arr /\
  length (defined slots) = Nat.min (Z.to_nat amount) (length arr).
Proof.
  unfold coll_random.
  destruct (Nat.eqb (length arr) 0) eqn:E0; simpl.
  - apply Nat.eqb_eq in E0. rewrite E0. intros H; inversion H; subst.
    split; [apply submseteq_nil_l | by rewrite Nat.min_0_r].
  - unfold truthyZ. rewrite negb_involutive.
    destruct (Z.eqb amount 0) eqn:Ea.
    + apply Z.eqb_eq in Ea. rewrite Ea. intros H; inversion H; subst.
      split; [apply submseteq_nil_l | done].
    + destruct (2 ^ 32 <=? amount); [discriminate|].
      intros H; inversion H; subst. apply random_slots_spec.
Qed.

(** [random] returns when fewer than 2^32 values are asked for. *)
Lemma coll_random_returns {A : Type} (amount : Z) (draws : list nat) (arr : list A) :
  amount < 2 ^ 32 -> exists slots, coll_random amount draws arr = Returns slots.
Proof.
  intros Hlt. unfold coll_random.
  destruct (_ || _)%bool; [by eexists|].
  destruct (2 ^ 32 <=? amount) eqn:E; [apply Z.leb_le in E; lia | by eexists].
Qed.

(** What [roll] returns, in terms of the eligible set. *)
Lemma roll_draws_from_eligible
    (w : World) (mo : ManagerDefaults) (g : Giveaway) (count : option Z)
    (draws : list nat) (el : Collection) (ws : list (option GuildMember)) :
  eligible w mo g = Returns el ->
  roll w mo g count draws = Returns ws ->
  exists winners,
    ws = map Some winners /\
    Z.of_nat (length winners)
      = Z.min (Z.max 0 (roll_amount g count)) (Z.of_nat (length el)) /\
    Z.of_nat (length winners) <= Z.max 0 (roll_amount g count) /\
    NoDup winners /\ NoDup (map m_id winners) /\
    Forall (fun m => exists u, u ∈ el /\ resolve_member w g u = Some m) winners.
Proof.
  intros Hel. unfold roll. rewrite Hel.
  set (amount := roll_amount g count).
  destruct (coll_random amount draws el) as [slots|] eqn:Er; [|discriminate].
  intros Hws; inversion Hws; subst ws; clear Hws.
  destruct (coll_random_spec amount draws el slots Er) as [Hsub Hlen].
  set (us := defined slots) in *.
  assert (Hres : Forall (fun u => is_Some (resolve_member w g u)) us).
  { apply Forall_forall. intros u Hu.
    pose proof (eligible_members w mo g el Hel) as Hall.
    rewrite Forall_forall in Hall. apply Hall.
    by apply (elem_of_submseteq us). }
  destruct (resolve_all w g us Hres) as (winners & Hmap & Hid & Hall2).
  assert (Hl : length winners = length us).
  { by rewrite <- (length_map m_id), Hid, length_map. }
  assert (Hnd : NoDup (map m_id winners)).
  { rewrite Hid. apply (submseteq_NoDup _ (map u_id el)).
    - by apply (fmap_submseteq u_id).
    - by apply (eligible_NoDup w mo g). }
  exists winners. split; [done|].
  split; [rewrite Hl, Hlen; lia|]. split; [rewrite Hl, Hlen; lia|].
  split; [by apply (NoDup_fmap_1 m_id)|]. split; [done|].
  apply Forall_forall. intros m Hm.
  apply list_elem_of_lookup in Hm as [i Hi].
  destruct (Forall2_lookup_r _ _ _ _ _ Hall2 Hi) as (u & Hu & Hr).
  exists u. split; [|done].
  apply (elem_of_submseteq us); [|done]. by eapply list_elem_of_lookup_2.
Qed.

(** [roll] returns when the eligible set is computed and fewer than 2^32
    winners are asked for. *)
Lemma roll_returns
    (w : World) (mo : ManagerDefaults) (g : Giveaway) (count : option Z)
    (draws : list nat) (el : Collection) :
  eligible w mo g = Returns el -> roll_amount g count < 2 ^ 32 ->
  exists ws, roll w mo g count draws = Returns ws.
Proof.
  intros Hel Hlt. unfold roll. rewrite Hel.
  destruct (coll_random_returns (roll_amount g count) draws el Hlt) as [slots ->].
  by eexists.
Qed.

(** The claim as the specification words it fails at both ends of the
    range of [winnerCount]: with 2^32 winners asked for and a candidate at
    hand [roll] fails with a RangeError, and with a negative number it
    returns nobody, which is more than the number asked for. *)
Lemma roll_outside_the_range :
  eligible Sample.world Sample.manager_defaults (set_winnerCount (2 ^ 32) Sample.fetched)
    = Returns [mkUser "1" false; mkUser "2" false; mkUser "3" false] /\
  roll Sample.world Sample.manager_defaults (set_winnerCount (2 ^ 32) Sample.fetched)
    None [] = Throws "RangeError: Invalid array length" /\
  eligible Sample.world Sample.manager_defaults (set_winnerCount (-1) Sample.fetched)
    = Returns [mkUser "1" false; mkUser "2" false; mkUser "3" false] /\
  roll Sample.world Sample.manager_defaults (set_winnerCount (-1) Sample.fetched)
    None [] = Returns [] /\
  Z.of_nat (length (@nil (option GuildMember)))
    <> Z.min (winnerCount (set_winnerCount (-1) Sample.fetched)) 3.
Proof. repeat split; try reflexivity. simpl. lia. Qed.

(** C2 (amended). Whenever the eligible set of a giveaway is computed and
    the number [n] of winners asked for lies between 1 and 2^32 - 1 -- [n]
    is the [winnerCount] of the record when [roll] is given no number or 0,
    as [end] calls it, and the number given otherwise -- [roll] returns (it
    does not fail on undersupply) a list of exactly min(n, size of the
    eligible set) members, hence never more than [n]; no member and no
    member id occurs twice in it, and every winner is the guild member of an
    eligible user. *)
Theorem roll_sample_without_replacement
    (w : World) (mo : ManagerDefaults) (g : Giveaway) (count : option Z) (n : Z)
    (draws : list nat) (el : Collection) :
  eligible w mo g = Returns el ->
  (count = None \/ count = Some 0) /\ n = winnerCount g \/ count = Some n ->
  1 <= n < 2 ^ 32 ->
  exists winners,
    roll w mo g count draws = Returns (map Some winners) /\
    Z.of_nat (length winners) = Z.min n (Z.of_nat (length el)) /\
    Z.of_nat (length winners) <= n /\
    NoDup winners /\ NoDup (map m_id winners) /\
    Forall (fun m => exists u, u ∈ el /\ resolve_member w g u = Some m) winners.
Proof.
  intros Hel Hn Hr.
  assert (Ha : roll_amount g count = n).
  { unfold roll_amount, js_or, truthyZ.
    destruct Hn as [[[->| ->] ->]| ->]; simpl; [done|done|].
    destruct (Z.eqb n 0) eqn:E; [apply Z.eqb_eq in E; lia | done]. }
  destruct (roll_returns w mo g count draws el Hel) as [ws Hws]; [lia|].
  destruct (roll_draws_from_eligible w mo g count draws el ws Hel Hws)
    as (winners & -> & Hlen & Hle & Hnd & Hid & Hall).
  rewrite Ha in Hlen, Hle. exists winners.
  repeat split; try done; lia.
Qed.

Lemma roll_sample_without_replacement_witness :
  exists winners,
    roll Sample.world Sample.manager_defaults Sample.fetched None [4%nat; 7%nat]
      = Returns (map Some winners) /\
    Z.of_nat (length winners)
      = Z.min 2 (Z.of_nat (length [mkUser "1" false; mkUser "2" false; mkUser "3" false])) /\
    Z.of_nat (length winners) <= 2 /\
    NoDup winners /\ NoDup (map m_id winners) /\
    Forall (fun m => exists u,
              u ∈ [mkUser "1" false; mkUser "2" false; mkUser "3" false] /\
              resolve_member Sample.world Sample.fetched u = Some m) winners.
Proof.
  apply (roll_sample_without_replacement Sample.world Sample.manager_defaults
           Sample.fetched None 2 [4%nat; 7%nat]).
  - reflexivity.
  - left. split; [by left | reflexivity].
  - lia.
Defined.

(** ** Exemption predicate *)

(** An error of the predicate of the record is caught: the member is
    treated as not exempt. *)
Lemma exemptMembers_record_error_caught
    (mo : ManagerDefaults) (g : Giveaway) (f : Predicate)
    (member : GuildMember) (e : string) :
  d_exemptMembers (options g) = Some f -> f member = Throws e ->
  exemptMembers mo g member = Returns false.
Proof. intros Hf He. unfold exemptMembers. by rewrite Hf, He. Qed.

(** An error of the predicate of the manager's defaults is not caught. *)
Lemma exemptMembers_default_error_escapes
    (mo : ManagerDefaults) (g : Giveaway) (f : Predicate)
    (member : GuildMember) (e : string) :
  d_exemptMembers (options g) = None -> def_exemptMembers mo = Some f ->
  f member = Throws e ->
  exemptMembers mo g member = Throws e.
Proof. intros Hn Hf He. unfold exemptMembers. by rewrite Hn, Hf, He. Qed.

(** C6. On the sample giveaway a failing predicate supplied on the record
    is caught and yields [false], while the same predicate taken from the
    manager's defaults lets its error out of [exemptMembers], and with it
    out of [roll]: [end] then never settles. *)
Theorem exemptMembers_default_predicate_not_caught :
  exemptMembers Sample.manager_defaults Sample.fetched_failing (mkMember "1" [])
    = Returns false /\
  exemptMembers Sample.failing_defaults Sample.fetched (mkMember "1" [])
    = Throws "boom" /\
  roll Sample.world Sample.failing_defaults Sample.fetched None [] = Throws "boom".
Proof. repeat split; reflexivity. Qed.

(** ** Entry count *)

Section EntryFacts.

Lemma coll_set_has (u : User) (c : Collection) (x : Snowflake) :
  x = u_id u \/ x ∈ map u_id c -> x ∈ map u_id (coll_set u c).
Proof.
  induction c as [|v c IH]; simpl.
  - intros [->|H]; [by apply elem_of_cons; left | by apply elem_of_nil in H].
  - destruct (String.eqb (u_id v) (u_id u)) eqn:E; simpl; intros [->|H].
    + by apply elem_of_cons; left.
    + apply String.eqb_eq in E. rewrite <- E. done.
    + apply elem_of_cons; right. apply IH. by left.
    + apply elem_of_cons in H as [->|H]; [by apply elem_of_cons; left|].
      apply elem_of_cons; right. apply IH. by right.
Qed.

(** The ids of a fetched collection are the ids the platform reported. *)
Lemma fetchUsers_ids (r : MessageReaction) (x : Snowflake) :
  x ∈ map u_id (fetchUsers r) <-> x ∈ map u_id (r_users r).
Proof.
  unfold fetchUsers.
  assert (H : forall us c,
            x ∈ map u_id (fold_left (fun c u => coll_set u c) us c)
            <-> x ∈ map u_id c \/ x ∈ map u_id us).
  { induction us as [|u us IH]; simpl; intros c.
    - split; [by left | intros [H|H]; [done | by apply elem_of_nil in H]].
    - rewrite IH. split.
      + intros [H|H]; [|right; by apply elem_of_cons; right].
        apply coll_set_keys in H as [->|H]; [right; by apply elem_of_cons; left | by left].
      + intros [H|H]; [left; apply coll_set_has; by right|].
        apply elem_of_cons in H as [->|H]; [left; apply coll_set_has; by left | by right]. }
  rewrite H. split; [intros [Hn|Hn]; [by apply elem_of_nil in Hn | done] | by right].
Qed.

Lemma filter_length_Permutation {A : Type} (p : A -> bool) (l k : list A) :
  l ≡ₚ k -> length (List.filter p l) = length (List.filter p k).
Proof.
  induction 1 as [|x l k _ IH|x y l|l k j _ IH1 _ IH2]; simpl.
  - done.
  - destruct (p x); simpl; by rewrite IH.
  - destruct (p x), (p y); done.
  - by rewrite IH1.
Qed.

(** The users of a fetched collection other than this process are as many
    as the distinct ids the platform reported, this process's own apart. *)
Lemma fetchUsers_count (msg : Message) (r : MessageReaction) :
  length (List.filter (not_self msg) (fetchUsers r))
  = length (List.filter (fun id => negb (String.eqb id (msg_client_user msg)))
              (remove_dups (map u_id (r_users r)))).
Proof.
  rewrite <- (filter_length_Permutation _ (map u_id (fetchUsers r))).
  - induction (fetchUsers r) as [|u us IH]; simpl; [done|].
    unfold not_self at 1. destruct (negb _); simpl; by rewrite IH.
  - apply NoDup_Permutation.
    + apply fetchUsers_NoDup.
    + apply NoDup_remove_dups.
    + intros x. by rewrite elem_of_remove_dups, fetchUsers_ids.
Qed.

Lemma find_skip {A : Type} (p : A -> bool) (pre : list A) (x : A) (post : list A) :
  Forall (fun y => p y = false) pre -> p x = true ->
  find p (pre ++ x :: post) = Some x.
Proof.
  induction pre as [|y pre IH]; simpl; intros Hpre Hx; [by rewrite Hx|].
  apply Forall_cons in Hpre as [-> Hpre]. by apply IH.
Qed.

Lemma find_none_all {A : Type} (p : A -> bool) (l : list A) :
  Forall (fun y => p y = false) l -> find p l = None.
Proof.
  induction l as [|y l IH]; simpl; intros Hl; [done|].
  apply Forall_cons in Hl as [-> Hl]. by apply IH.
Qed.

Lemma attached_find (msg : Message) (k : string) (r : MessageReaction) :
  attached msg k r -> find_reaction msg (Some k) = Some r.
Proof.
  unfold attached, find_reaction.
  intros [(pre & post & -> & Hk & Hpre)|(Hnone & pre & post & Hl & Hk & Hpre)].
  - rewrite (find_skip _ pre r post); [done| |by apply String.eqb_eq].
    eapply Forall_impl; [exact Hpre|]. intros y Hy. by apply String.eqb_neq.
  - rewrite find_none_all.
    + rewrite Hl. apply find_skip; [|by apply String.eqb_eq].
      eapply Forall_impl; [exact Hpre|]. intros y Hy. by apply String.eqb_neq.
    + eapply Forall_impl; [exact Hnone|]. intros y Hy. by apply String.eqb_neq.
Qed.

End EntryFacts.

(** The claim as the specification words it fails on a fetched message that
    carries no reaction under the configured name -- [ValidEntry] returns an
    empty array, which is no number -- and in a channel that no longer
    resolves, where it fails. *)
Lemma ValidEntry_is_not_always_a_count :
  message Cases.fetched_silent = Some Cases.silent /\
  ValidEntry Sample.world Sample.manager_defaults Cases.fetched_silent
    = Returns EmptyArray /\
  message Sample.fetched = Some Sample.announcement /\
  ValidEntry Cases.world_without_channel Sample.manager_defaults Sample.fetched
    = Throws "TypeError".
Proof. repeat split; reflexivity. Qed.

(** C7 (amended). For a giveaway with a fetched message that carries the
    configured reaction, in a channel that resolves, [ValidEntry] returns
    the number of distinct users the platform reports for that reaction,
    leaving out only this process's own identity: no bot-policy, membership,
    exemption or permission filter is applied.  That count is at least the
    size of the eligible set winner selection draws from. *)
Theorem ValidEntry_counts_all_but_self
    (w : World) (mo : ManagerDefaults) (g : Giveaway) (msg : Message)
    (c : TextChannel) (k : string) (r : MessageReaction) :
  message g = Some msg -> get_channel w (channelID g) = Some c ->
  reaction mo g = Some k -> attached msg k r ->
  let n := length (List.filter (fun id => negb (String.eqb id (msg_client_user msg)))
                     (remove_dups (map u_id (r_users r)))) in
  ValidEntry w mo g = Returns (Count n) /\
  forall el, eligible w mo g = Returns el -> (length el <= n)%nat.
Proof.
  intros Hmsg Hc Hk Hr n.
  pose proof (attached_find msg k r Hr) as Hf. rewrite <- Hk in Hf.
  split.
  - unfold ValidEntry. rewrite Hmsg, Hf, Hc. subst n.
    by rewrite fetchUsers_count.
  - intros el Hel. subst n. rewrite <- fetchUsers_count.
    destruct (eligible_inv w mo g el Hel) as [->|(msg' & c' & Hm' & _ & Hs)].
    + simpl. lia.
    + rewrite Hmsg in Hm'. inversion Hm'; subst msg'.
      unfold reactors in Hs. rewrite Hf in Hs.
      apply sublist_length in Hs. etrans; [exact Hs|].
      apply sublist_length, filter_sublist.
Qed.

Lemma ValidEntry_counts_all_but_self_witness :
  ValidEntry Sample.world Sample.manager_defaults Sample.fetched = Returns (Count 4) /\
  forall el, eligible Sample.world Sample.manager_defaults Sample.fetched = Returns el ->
             (length el <= 4)%nat.
Proof.
  apply (ValidEntry_counts_all_but_self Sample.world Sample.manager_defaults
           Sample.fetched Sample.announcement Sample.channel "tada" Sample.tada);
    try reflexivity.
  left. exists [], []. split; [reflexivity|]. split; [reflexivity | constructor].
Defined.

(** ** Winning chance *)

(** C3. The manager's [winningChance] never settles for a giveaway it
    holds: it calls [giveaway.winningChance()], class [Giveaway] defines no
    such method, and the call fails in the executor of the promise.  So no
    ratio over the eligible set is ever returned. *)
Theorem winningChance_never_settles :
  find_giveaway (Some "m1") Sample.manager_fetched = Some 0%nat /\
  call winningChance Sample.fetched = Throws "TypeError: not a function" /\
  manager_winningChance Sample.world (Some "m1") Sample.manager_fetched = Pending.
Proof. repeat split; reflexivity. Qed.

(** ** Frame lemmas: what the operations leave alone *)

Section Frames.

Lemma frozen_refl g : frozen g g.
Proof. by intros _. Qed.

Lemma advances_refl g : advances g g.
Proof. split; [apply frozen_refl | done]. Qed.

Lemma record_of_ended g g' : record_of g' = record_of g -> ended g' = ended g.
Proof. intros H. by apply (f_equal ended) in H. Qed.

Lemma frozen_trans g1 g2 g3 : frozen g1 g2 -> frozen g2 g3 -> frozen g1 g3.
Proof.
  intros H12 H23 He. specialize (H12 He).
  rewrite <- H12. apply H23. by rewrite (record_of_ended _ _ H12).
Qed.

Lemma advances_trans g1 g2 g3 : advances g1 g2 -> advances g2 g3 -> advances g1 g3.
Proof.
  intros [F12 T12] [F23 T23]. split; [by eapply frozen_trans | congruence].
Qed.


Lemma heap_rel_refl R m : (forall g, R g g) -> heap_rel R m m.
Proof. intros HR l g Hl. by exists g. Qed.

Lemma heap_rel_trans R m1 m2 m3 :
  (forall a b c, R a b -> R b c -> R a c) ->
  heap_rel R m1 m2 -> heap_rel R m2 m3 -> heap_rel R m1 m3.
Proof.
  intros HR H12 H23 l g Hl.
  destruct (H12 l g Hl) as (g2 & Hl2 & R12).
  destruct (H23 l g2 Hl2) as (g3 & Hl3 & R23).
  exists g3. split; [done | by eapply HR].
Qed.

Lemma heap_rel_mono (R R' : Giveaway -> Giveaway -> Prop) m m' :
  (forall g g', R g g' -> R' g g') -> heap_rel R m m' -> heap_rel R' m m'.
Proof.
  intros HR H l g Hl. destruct (H l g Hl) as (g' & Hl' & Hg).
  exists g'. split; [done | by apply HR].
Qed.

(** A manager with the same heap. *)
Lemma heap_rel_same_heap R m m' :
  (forall g, R g g) -> heap m' = heap m -> heap_rel R m m'.
Proof. intros HR Hh l g Hl. exists g. by rewrite Hh. Qed.

Lemma heap_update_eq this f m g :
  heap m !! this = Some g -> heap (update this f m) !! this = Some (f g).
Proof.
  intros Hl. unfold update. rewrite Hl. simpl.
  apply list_lookup_insert_eq. by eapply lookup_lt_Some.
Qed.

Lemma heap_update_ne this f m l :
  l <> this -> heap (update this f m) !! l = heap m !! l.
Proof.
  intros Hne. unfold update. destruct (heap m !! this); [|done].
  simpl. by apply list_lookup_insert_ne.
Qed.

Lemma update_fields this f m :
  giveaways (update this f m) = giveaways m /\
  storage (update this f m) = storage m /\
  defaults (update this f m) = defaults m /\
  emitted (update this f m) = emitted m /\
  ready (update this f m) = ready m.
Proof. unfold update. by destruct (heap m !! this). Qed.

(** An assignment to one object relates the heaps when it relates that
    object to its new value. *)
Lemma heap_rel_update (R : Giveaway -> Giveaway -> Prop) this f m :
  (forall g, R g g) ->
  (forall g, heap m !! this = Some g -> R g (f g)) ->
  heap_rel R m (update this f m).
Proof.
  intros Hrefl Hf l g Hl. destruct (decide (l = this)) as [->|Hne].
  - exists (f g). split; [by apply heap_update_eq | by apply Hf].
  - exists g. split; [by rewrite heap_update_ne | done].
Qed.

Lemma writeAll_heap m : heap (writeAll m) = heap m.
Proof. done. Qed.

Lemma advances_set_message v g : advances g (set_message v g).
Proof. split; [by intros _ | done]. Qed.

Lemma advances_live f g :
  ended g = false -> terms (f g) = terms g -> advances g (f g).
Proof. intros He Ht. split; [|done]. intros He'. congruence. Qed.

End Frames.

Section OperationFrames.
Variable w : World.

Lemma same_record_advances g g' : same_record g g' -> advances g g'.
Proof.
  intros H. split; [by intros _|].
  unfold same_record, record_of in H.
  destruct g, g'. by inversion H.
Qed.

(** [fetchMessage] changes the cached handle of [this] at most. *)
Lemma fetchMessage_same_record this m :
  heap_rel same_record m (fetchMessage w this m).1.
Proof.
  unfold fetchMessage.
  destruct (heap m !! this) as [g|] eqn:Hg; [|by apply heap_rel_refl].
  destruct (falsy_id (messageID g)); [by apply heap_rel_refl|].
  destruct (get_channel w (channelID g)); [|by apply heap_rel_refl].
  destruct (fetch_message _ _); simpl.
  - by apply heap_rel_update.
  - by apply heap_rel_same_heap.
Qed.

Lemma fetchMessage_advances this m :
  heap_rel advances m (fetchMessage w this m).1.
Proof.
  eapply heap_rel_mono; [apply same_record_advances|].
  apply fetchMessage_same_record.
Qed.

Lemma fetchMessage_defaults this m :
  defaults (fetchMessage w this m).1 = defaults m.
Proof.
  unfold fetchMessage.
  destruct (heap m !! this) as [g|]; [|done].
  destruct (falsy_id (messageID g)); [done|].
  destruct (get_channel w (channelID g)); [|done].
  destruct (fetch_message _ _); simpl; [|done].
  apply update_fields.
Qed.

(** After [fetchMessage] the object at [this] is still live if it was. *)
Lemma fetchMessage_this this m g :
  heap m !! this = Some g ->
  exists g1, heap (fetchMessage w this m).1 !! this = Some g1 /\
             record_of g1 = record_of g.
Proof. intros Hg. by apply fetchMessage_same_record. Qed.

Lemma heap_rel_advances_trans m1 m2 m3 :
  heap_rel advances m1 m2 -> heap_rel advances m2 m3 -> heap_rel advances m1 m3.
Proof. apply heap_rel_trans, advances_trans. Qed.

Lemma heap_rel_set_ended this m g :
  heap m !! this = Some g -> ended g = false ->
  heap_rel advances m (update this (set_ended true) m).
Proof.
  intros Hg He. apply heap_rel_update; [apply advances_refl|].
  intros g' Hg'. rewrite Hg in Hg'. inversion Hg'; subst g'.
  by apply advances_live.
Qed.

(** [end] leaves ended records and all terms as they are. *)
Lemma end_advances draws this m :
  heap_rel advances m (end_ w draws this m).1.
Proof.
  unfold end_.
  destruct (heap m !! this) as [g|] eqn:Hg; [|by apply heap_rel_refl, advances_refl].
  destruct (ended g) eqn:He; [by apply heap_rel_refl, advances_refl|].
  destruct (bool_decide _); [by apply heap_rel_refl, advances_refl|].
  eapply heap_rel_advances_trans; [by eapply heap_rel_set_ended|].
  pose proof (fetchMessage_advances this (update this (set_ended true) m)) as Hf.
  destruct (fetchMessage w this _) as [m1 out]. simpl in Hf.
  destruct out; simpl; try done;
    (destruct (heap m1 !! this) as [g1|]; [|done]);
    (destruct (message g1); [|done]);
    (destruct (roll w (defaults m1) g1 None draws) as [winners|]; [|done]);
    (destruct (ValidEntry w (defaults m1) g1); [|done]);
    (destruct (0 <? length winners)%nat; simpl;
     (eapply heap_rel_advances_trans; [exact Hf|]);
     by apply heap_rel_same_heap; [apply advances_refl|]).
Qed.

Lemma manager_end_advances draws id m :
  heap_rel advances m (manager_end w draws id m).1.
Proof.
  unfold manager_end. destruct (find_giveaway id m).
  - apply end_advances.
  - apply heap_rel_refl, advances_refl.
Qed.

End OperationFrames.

Section MoreOperationFrames.
Variable w : World.




Lemma heap_rel_live_update this f m g :
  heap m !! this = Some g -> ended g = false -> terms (f g) = terms g ->
  heap_rel advances m (update this f m).
Proof.
  intros Hg He Ht. apply heap_rel_update; [apply advances_refl|].
  intros g' Hg'. rewrite Hg in Hg'. inversion Hg'; subst g'.
  by apply advances_live.
Qed.

Lemma heap_rel_writeAll m m' :
  heap_rel advances m m' -> heap_rel advances m (writeAll m').
Proof.
  intros H. eapply heap_rel_advances_trans; [exact H|].
  by apply heap_rel_same_heap; [apply advances_refl|].
Qed.

(** Rewriting the requirement text of a live giveaway. *)
Lemma refresh_serverslist_advances this m :
  (forall g, heap m !! this = Some g -> ended g = false) ->
  heap_rel advances m (refresh_serverslist w this m).
Proof.
  intros Hlive. unfold refresh_serverslist.
  destruct (heap m !! this) as [g|] eqn:Hg; [|by apply heap_rel_refl, advances_refl].
  pose proof (Hlive g eq_refl) as He.
  assert (H1 : heap_rel advances m (update this (set_serverslist (Some "")) m)).
  { by eapply heap_rel_live_update. }
  destruct (serverlink (reqs g)) as [[|link rest]|];
    try (by apply heap_rel_writeAll).
  destruct (message g); [by apply heap_rel_writeAll | done].
Qed.

End MoreOperationFrames.

Section TickFrames.
Variable w : World.

Lemma live_after_fetch this m g :
  heap m !! this = Some g -> ended g = false ->
  forall g1, heap (fetchMessage w this m).1 !! this = Some g1 -> ended g1 = false.
Proof.
  intros Hg He g1 Hg1.
  destruct (fetchMessage_this w this m g Hg) as (g1' & Hg1' & Hrec).
  rewrite Hg1 in Hg1'. inversion Hg1'; subst g1'.
  by rewrite (record_of_ended _ _ Hrec).
Qed.




Lemma updateServerRequirement_advances now draws this m :
  heap_rel advances m (updateServerRequirement w now draws this m).
Proof.
  unfold updateServerRequirement.
  destruct (heap m !! this) as [g|] eqn:Hg; [|by apply heap_rel_refl, advances_refl].
  destruct (ended g) eqn:He; [by apply heap_rel_refl, advances_refl|].
  destruct (bool_decide _); [by apply heap_rel_refl, advances_refl|].
  destruct (remainingTime g now <=? 0); [apply manager_end_advances|].
  pose proof (fetchMessage_advances w this m) as Hf.
  pose proof (live_after_fetch this m g Hg He) as Hlive.
  destruct (fetchMessage w this m) as [m1 out]. simpl in *.
  destruct out; try done;
    (eapply heap_rel_advances_trans; [exact Hf|]);
    by apply refresh_serverslist_advances.
Qed.





End TickFrames.

Section EditFrames.
Variable w : World.





End EditFrames.

(** ** Ended giveaways *)






(** C4. On a record whose [ended] is already true, [end] rejects with the
    already-ended message and returns the manager (heap of objects,
    collection, storage file, emitted signals) exactly as it was; so does
    the manager's [end] for the id of such a record. *)
Theorem end_on_ended_rejects_unchanged
    (w : World) (draws : list nat) (this : nat) (m : Manager) (g : Giveaway) :
  heap m !! this = Some g -> ended g = true ->
  end_ w draws this m = (m, Rejected (msg_already_ended (messageID g))) /\
  (forall id, find_giveaway id m = Some this ->
     manager_end w draws id m = (m, Rejected (msg_already_ended (messageID g)))).
Proof.
  intros Hg He.
  assert (H : end_ w draws this m = (m, Rejected (msg_already_ended (messageID g)))).
  { unfold end_. by rewrite Hg, He. }
  split; [done|]. intros id Hf. unfold manager_end. by rewrite Hf.
Qed.

Lemma end_on_ended_rejects_unchanged_witness :
  end_ Sample.world [] 0 Sample.manager_ended
    = (Sample.manager_ended, Rejected "Giveaway with message ID m1 is already ended") /\
  (forall id, find_giveaway id Sample.manager_ended = Some 0%nat ->
     manager_end Sample.world [] id Sample.manager_ended
       = (Sample.manager_ended, Rejected "Giveaway with message ID m1 is already ended")).
Proof.
  apply (end_on_ended_rejects_unchanged Sample.world [] 0 Sample.manager_ended
           Sample.finished); reflexivity.
Defined.

(** ** [end] when the announcement is gone *)

Lemma fetchMessage_unfetchable
    (w : World) (this : nat) (m : Manager) (g : Giveaway) (c : TextChannel)
    (id : Snowflake) :
  heap m !! this = Some g -> messageID g = Some id -> truthyS id = true ->
  get_channel w (channelID g) = Some c -> fetch_message c id = None ->
  fetchMessage w this m
    = (deleteGiveaway (set_giveaways (without_messageID (Some id) m) m),
       Rejected (msg_unable_fetch (Some id))).
Proof.
  intros Hg Hid Ht Hc Hf. unfold fetchMessage.
  rewrite Hg, Hid. simpl. rewrite Ht. simpl. by rewrite Hc, Hf.
Qed.

Lemma without_messageID_spec (id : option Snowflake) (m : Manager) (l : nat) :
  l ∈ without_messageID id m ->
  l ∈ giveaways m /\ exists g, heap m !! l = Some g /\ messageID g <> id.
Proof.
  unfold without_messageID. intros H.
  apply list_elem_of_In, filter_In in H as [Hin Hb].
  split; [by apply list_elem_of_In|].
  destruct (heap m !! l) as [g|]; [|discriminate].
  exists g. split; [done|]. apply negb_true_iff, bool_decide_eq_false in Hb. done.
Qed.

Lemma pruned_state (this : nat) (id : Snowflake) (m0 m' : Manager) (g0 : Giveaway) :
  heap m0 !! this = Some g0 -> ended g0 = true -> messageID g0 = Some id ->
  heap m' = heap m0 -> giveaways m' = without_messageID (Some id) m0 ->
  storage m' = Some (Document (map (fun x => stringify (data x)) (objects m'))) ->
  ended_and_pruned this id m'.
Proof.
  intros Hg He Hid Hh Hgs Hs. repeat split; [| | |done].
  - exists g0. by rewrite Hh.
  - rewrite Hgs. intros Hin.
    apply without_messageID_spec in Hin as (_ & g' & Hg' & Hne). congruence.
  - intros l gl Hin Hl. rewrite Hgs in Hin. rewrite Hh in Hl.
    apply without_messageID_spec in Hin as (_ & g' & Hg' & Hne). congruence.
Qed.

(** C10. [end] on the sample giveaway after its announcement was deleted,
    with the message handle of an earlier fetch still cached: the fetch
    fails, which marks the object ended and prunes the giveaway from the
    collection and from the storage file; [end] then tests the cached
    handle instead of the outcome of the fetch, draws winners from the
    stale message, emits [giveawayEnded] and resolves, where [fetchMessage]
    itself rejects. *)
Theorem end_with_stale_handle_resolves :
  heap Sample.manager_fetched !! 0%nat = Some Sample.fetched /\
  ended Sample.fetched = false /\
  message Sample.fetched = Some Sample.announcement /\
  fetch_message Sample.channel_gone "m1" = None /\
  (fetchMessage Sample.world_gone 0 Sample.manager_fetched).2
    = Rejected (msg_unable_fetch (Some "m1")) /\
  (end_ Sample.world_gone [] 0 Sample.manager_fetched).2
    = Resolved (Some [Some (mkMember "1" []); Some (mkMember "2" ["ADMINISTRATOR"])]) /\
  emitted (end_ Sample.world_gone [] 0 Sample.manager_fetched).1
    = [giveawayEnded 0 [Some (mkMember "1" []); Some (mkMember "2" ["ADMINISTRATOR"])]] /\
  giveaways (end_ Sample.world_gone [] 0 Sample.manager_fetched).1 = [] /\
  storage (end_ Sample.world_gone [] 0 Sample.manager_fetched).1 = Some (Document []).
Proof. repeat split; reflexivity. Qed.

(** X18. When [end] is called on a non-ended giveaway with a message id,
    in a channel that resolves, whose announcement cannot be fetched, then
    afterwards [ended] is true on the object and the record is gone from
    the manager's collection and from the storage file, however the call
    settles; with no message handle cached before, the call rejects with
    the unable-to-fetch message. *)
Theorem end_unfetchable_marks_and_prunes
    (w : World) (draws : list nat) (this : nat) (m : Manager) (g : Giveaway)
    (c : TextChannel) (id : Snowflake) :
  heap m !! this = Some g -> ended g = false ->
  get_channel w (channelID g) = Some c ->
  messageID g = Some id -> truthyS id = true ->
  fetch_message c id = None ->
  ended_and_pruned this id (end_ w draws this m).1 /\
  (message g = None ->
   (end_ w draws this m).2 = Rejected (msg_unable_fetch (Some id))).
Proof.
  intros Hg He Hc Hid Ht Hf. unfold end_. rewrite Hg, He, Hc. simpl.
  set (m0 := update this (set_ended true) m).
  assert (Hg0 : heap m0 !! this = Some (set_ended true g)) by (by apply heap_update_eq).
  rewrite (fetchMessage_unfetchable w this m0 (set_ended true g) c id Hg0 Hid Ht Hc Hf).
  set (m1 := deleteGiveaway (set_giveaways (without_messageID (Some id) m0) m0)).
  assert (Hp : forall m', heap m' = heap m0 ->
                giveaways m' = without_messageID (Some id) m0 ->
                storage m' = Some (Document (map (fun x => stringify (data x)) (objects m'))) ->
                ended_and_pruned this id m').
  { intros m'. by apply (pruned_state this id m0 m' (set_ended true g)). }
  change (heap m1 !! this) with (heap m0 !! this). rewrite Hg0. simpl.
  destruct (message g) as [msg|]; [|split; [by apply Hp | by rewrite Hid]].
  split; [|done].
  destruct (roll w (defaults m0) (set_ended true g) None draws) as [winners|];
    [|by apply Hp].
  destruct (ValidEntry w (defaults m0) (set_ended true g)); [|by apply Hp].
  by destruct (0 <? length winners)%nat; apply Hp.
Qed.

Lemma end_unfetchable_marks_and_prunes_witness :
  ended_and_pruned 0%nat "m1" (end_ Sample.world_gone [] 0 Sample.manager).1 /\
  (message Sample.fresh = None ->
   (end_ Sample.world_gone [] 0 Sample.manager).2
     = Rejected (msg_unable_fetch (Some "m1"))).
Proof.
  apply (end_unfetchable_marks_and_prunes Sample.world_gone [] 0 Sample.manager
           Sample.fresh Sample.channel_gone "m1"); reflexivity.
Defined.

(** ** [edit] *)

(** The claim as first stated fails: a field that is present in the options
    with a falsy value is not applied.  An edit of the sample giveaway with
    [newWinnerCount: 0] succeeds and leaves [winnerCount] at 2. *)
Lemma edit_present_falsy_field_not_applied :
  ~ (forall (w : World) (o : GiveawayEditOptions) (this : nat) (m m' : Manager)
            (g : Giveaway) (n : Z),
       heap m !! this = Some g -> ended g = false ->
       edit w o this m = (m', Resolved this) ->
       newWinnerCount o = Some n ->
       winnerCount <$> heap m' !! this = Some n).
Proof.
  intros H.
  specialize (H Sample.world (mkEdit (Some 0) None None None) 0%nat Sample.manager
                (edit Sample.world (mkEdit (Some 0) None None None) 0 Sample.manager).1
                Sample.fresh 0 eq_refl eq_refl eq_refl eq_refl).
  vm_compute in H. discriminate.
Qed.

Lemma apply_edit_record_of (o : GiveawayEditOptions) (g : Giveaway) :
  record_of (apply_edit o g) = apply_edit o (record_of g).
Proof.
  destruct o as [[n|] [p|] [d|] [t|]]; unfold apply_edit, assign_if; simpl;
    repeat match goal with |- context [if ?b then _ else _] => destruct b end;
    reflexivity.
Qed.

Lemma apply_edit_fields (o : GiveawayEditOptions) (g : Giveaway) :
  let g' := apply_edit o g in
  winnerCount g' = assigned truthyZ (newWinnerCount o) (winnerCount g) /\
  prize g' = assigned truthyS (newPrize o) (prize g) /\
  endAt g' = assigned truthyZ (setEndTimestamp o)
               (endAt g + assigned truthyZ (addTime o) 0) /\
  startAt g' = startAt g /\ ended g' = ended g /\ channelID g' = channelID g /\
  messageID g' = messageID g /\ guildID g' = guildID g /\
  hostedBy g' = hostedBy g /\ messages g' = messages g /\
  options g' = options g /\ reqs g' = reqs g /\ message g' = message g /\
  threeSecondsRemaining g' = threeSecondsRemaining g /\
  threeSecondsRemaining2 g' = threeSecondsRemaining2 g.
Proof.
  destruct o as [[n|] [p|] [d|] [t|]];
    unfold apply_edit, assign_if, assigned; simpl;
    repeat match goal with |- context [truthyZ ?b] => destruct (truthyZ b) eqn:? end;
    repeat match goal with |- context [truthyS ?b] => destruct (truthyS b) eqn:? end;
    simpl; repeat split; try reflexivity; try lia; try congruence.
Qed.

Lemma fetchMessage_other (w : World) (this l : nat) (m : Manager) :
  l <> this -> heap (fetchMessage w this m).1 !! l = heap m !! l.
Proof.
  intros Hne. unfold fetchMessage.
  destruct (heap m !! this) as [g|]; [|done].
  destruct (falsy_id (messageID g)); [done|].
  destruct (get_channel w (channelID g)); [|done].
  destruct (fetch_message _ _); simpl; [|done].
  by apply heap_update_ne.
Qed.

(** C5 (amended). When [edit] succeeds on a non-ended giveaway, each of
    [newWinnerCount], [newPrize], [addTime], [setEndTimestamp] that is
    present with a truthy value (a number other than 0, a non-empty string)
    is applied, [setEndTimestamp] overriding [addTime], and one that is
    absent or falsy leaves its property as it was; no other property of the
    record changes, and no other giveaway object is touched. *)
Theorem edit_applies_truthy_fields
    (w : World) (o : GiveawayEditOptions) (this l : nat) (m m' : Manager)
    (g : Giveaway) :
  heap m !! this = Some g -> ended g = false ->
  edit w o this m = (m', Resolved l) ->
  l = this /\
  (forall l', l' <> this -> heap m' !! l' = heap m !! l') /\
  exists g',
    heap m' !! this = Some g' /\
    winnerCount g' = assigned truthyZ (newWinnerCount o) (winnerCount g) /\
    prize g' = assigned truthyS (newPrize o) (prize g) /\
    endAt g' = assigned truthyZ (setEndTimestamp o)
                 (endAt g + assigned truthyZ (addTime o) 0) /\
    startAt g' = startAt g /\ ended g' = false /\ channelID g' = channelID g /\
    messageID g' = messageID g /\ guildID g' = guildID g /\
    hostedBy g' = hostedBy g /\ messages g' = messages g /\
    options g' = options g /\ reqs g' = reqs g /\
    threeSecondsRemaining g' = threeSecondsRemaining g /\
    threeSecondsRemaining2 g' = threeSecondsRemaining2 g.
Proof.
  intros Hg He H. unfold edit in H. rewrite Hg, He in H.
  destruct (bool_decide _); [discriminate|]. unfold edit_resume in H.
  destruct (fetchMessage_this w this m g Hg) as (g1 & Hg1 & Hrec).
  pose proof (fun l' => fetchMessage_other w this l' m) as Hother.
  destruct (fetchMessage w this m) as [m1 out]. simpl in *.
  assert (H' : (if message g1 is Some _
                then (editGiveaway (update this (apply_edit o) m1), Resolved this)
                else (m1, Rejected (msg_unable_fetch (messageID g1))))
               = (m', Resolved l)).
  { destruct out; [| |discriminate]; by rewrite Hg1 in H. }
  clear H. destruct (message g1); [|discriminate].
  inversion H'; subst m' l. clear H'. split; [done|]. split.
  { intros l' Hne. change (heap (update this (apply_edit o) m1) !! l' = heap m !! l').
    rewrite heap_update_ne by done. by apply Hother. }
  exists (apply_edit o g1). split.
  { change (heap (update this (apply_edit o) m1) !! this = Some (apply_edit o g1)).
    by apply heap_update_eq. }
  assert (Hsame : record_of (apply_edit o g1) = record_of (apply_edit o g)).
  { by rewrite !apply_edit_record_of, Hrec. }
  destruct (apply_edit_fields o g)
    as (Hw & Hp & Hen & Hs & Hed & Hc & Hi & Hgu & Hh & Hms & Ho & Hr & _ & H3 & H32).
  rewrite <- Hw, <- Hp, <- Hen, <- Hs, <- He, <- Hed, <- Hc, <- Hi, <- Hgu, <- Hh,
    <- Hms, <- Ho, <- Hr, <- H3, <- H32.
  unfold record_of in Hsame.
  destruct (apply_edit o g1), (apply_edit o g). by inversion Hsame.
Qed.

Lemma edit_applies_truthy_fields_witness :
  let o := mkEdit (Some 3) (Some "") (Some (-1000)) None in
  let m' := (edit Sample.world o 0 Sample.manager).1 in
  0%nat = 0%nat /\
  (forall l', l' <> 0%nat -> heap m' !! l' = heap Sample.manager !! l') /\
  exists g',
    heap m' !! 0%nat = Some g' /\
    winnerCount g' = 3 /\ prize g' = "Free Steam Key" /\ endAt g' = 10000 /\
    startAt g' = 1000 /\ ended g' = false /\ channelID g' = "c1" /\
    messageID g' = Some "m1" /\ guildID g' = "g" /\
    hostedBy g' = None /\ messages g' = [] /\
    options g' = Sample.record /\ reqs g' = Sample.no_reqs /\
    threeSecondsRemaining g' = false /\ threeSecondsRemaining2 g' = false.
Proof.
  apply (edit_applies_truthy_fields Sample.world
           (mkEdit (Some 3) (Some "") (Some (-1000)) None) 0 0 Sample.manager
           _ Sample.fresh); reflexivity.
Defined.

(** ** [start] *)

Lemma alloc_lookup (g : Giveaway) (m : Manager) :
  heap (alloc g m).2 !! (alloc g m).1 = Some g.
Proof. simpl. by rewrite lookup_app_r, Nat.sub_diag. Qed.

(** Options that pass the four tests of [start]. *)
Lemma not_a_number_false (x : option JsNumber) :
  not_a_number x = false <-> exists n, x = Some (Num n) /\ n <> 0.
Proof.
  unfold not_a_number, falsy_number, isNaN, truthyZ. split.
  - destruct x as [[n|]|]; simpl; try discriminate.
    rewrite orb_false_r, negb_involutive. intros H%Z.eqb_neq. by exists n.
  - intros (n & -> & Hn). simpl. rewrite orb_false_r, negb_involutive.
    by apply Z.eqb_neq.
Qed.

(** A call of [start] that passes the tests builds the record and goes no
    further than the call of [giveaway.winningChance()]: the promise stays
    pending and the new object is referenced by nothing. *)
Lemma start_builds_record
    (w : World) (now1 now2 now3 : Z) (posted : option Snowflake)
    (draws : list nat) (dm : GiveawayMessages) (ch : TextChannel)
    (o : GiveawayStartOptions) (m : Manager) (time wc : Z) (p : string) :
  ready m = true -> ch_id ch <> "" ->
  so_time o = Some (Num time) -> time <> 0 ->
  so_prize o = Some p -> p <> "" ->
  so_winnerCount o = Some (Num wc) -> wc <> 0 ->
  start w now1 now2 now3 posted draws dm (Some ch) o m
  = (set_heap (heap m ++ [new_Giveaway (start_data now1 now2 ch dm o time wc p)]) m,
     Pending).
Proof.
  intros Hr Hc Ht Ht0 Hp Hp0 Hw Hw0. unfold start.
  rewrite Hr. simpl.
  assert (Hch : truthyS (ch_id ch) = true).
  { unfold truthyS. by apply negb_true_iff, String.eqb_neq. }
  rewrite Hch. simpl.
  assert (Hnt : not_a_number (so_time o) = false).
  { apply not_a_number_false. by exists time. }
  assert (Hnw : not_a_number (so_winnerCount o) = false).
  { apply not_a_number_false. by exists wc. }
  rewrite Hnt, Hnw. rewrite Hp. simpl.
  assert (Hpt : truthyS p = true).
  { unfold truthyS. by apply negb_true_iff, String.eqb_neq. }
  rewrite Hpt. simpl. by rewrite Ht, Hw.
Qed.

(** The claim as the specification words it fails on a call whose options
    are numeric, with a positive time and a non-empty prize: the clock moved
    between the two readings of the constructor call and the winner count
    is negative, so the record built has neither [endAt = startAt + time]
    nor [winnerCount >= 1]. *)
Lemma start_record_outside_the_claim :
  so_time Cases.start_negative = Some (Num 10000) /\
  so_prize Cases.start_negative = Some "Free Steam Key" /\
  so_winnerCount Cases.start_negative = Some (Num (-1)) /\
  exists g,
    heap (start Sample.world 1000 1001 1002 (Some "m2") [] []
            (Some Sample.channel) Cases.start_negative Sample.manager_empty).1
      !! 0%nat = Some g /\
    endAt g <> startAt g + 10000 /\ ~ 1 <= winnerCount g.
Proof.
  repeat split. eexists. split; [reflexivity|]. simpl. lia.
Qed.

(** C1 (amended). For every call of [start] on a ready manager, with a
    channel, a numeric time other than 0, a non-empty prize and a numeric
    winner count other than 0, the record [start] builds has [startAt]
    equal to the first reading of the clock, [endAt] equal to the second
    reading plus the time, [winnerCount] equal to the winner count given and
    the prize given.  Hence [endAt = startAt + time] when the clock did not
    move between the two readings, and [winnerCount >= 1] when the count
    given is at least 1. *)
Theorem start_record_terms
    (w : World) (now1 now2 now3 : Z) (posted : option Snowflake)
    (draws : list nat) (dm : GiveawayMessages) (ch : TextChannel)
    (o : GiveawayStartOptions) (m : Manager) (time wc : Z) (p : string) :
  ready m = true -> ch_id ch <> "" ->
  so_time o = Some (Num time) -> time <> 0 ->
  so_prize o = Some p -> p <> "" ->
  so_winnerCount o = Some (Num wc) -> wc <> 0 ->
  exists g,
    heap (start w now1 now2 now3 posted draws dm (Some ch) o m).1
      !! length (heap m) = Some g /\
    heap m !! length (heap m) = None /\
    startAt g = now1 /\ endAt g = now2 + time /\ winnerCount g = wc /\
    prize g = p /\
    (now2 = now1 -> endAt g = startAt g + time) /\
    (1 <= wc -> 1 <= winnerCount g).
Proof.
  intros Hr Hc Ht Ht0 Hp Hp0 Hw Hw0.
  rewrite (start_builds_record w now1 now2 now3 posted draws dm ch o m time wc p)
    by done.
  exists (new_Giveaway (start_data now1 now2 ch dm o time wc p)).
  split; [apply (alloc_lookup _ m)|].
  split; [by apply lookup_ge_None_2|].
  simpl. repeat split; try done. by intros ->.
Qed.

Lemma start_record_terms_witness :
  exists g,
    heap (start Sample.world 1000 1001 1002 (Some "m1") [] []
            (Some Sample.channel) Sample.start_options Sample.manager_empty).1
      !! length (heap Sample.manager_empty) = Some g /\
    heap Sample.manager_empty !! length (heap Sample.manager_empty) = None /\
    startAt g = 1000 /\ endAt g = 1001 + 10000 /\ winnerCount g = 1 /\
    prize g = "Free Steam Key" /\
    (1001 = 1000 -> endAt g = startAt g + 10000) /\
    (1 <= 1 -> 1 <= winnerCount g).
Proof.
  apply (start_record_terms Sample.world 1000 1001 1002 (Some "m1") [] []
           Sample.channel Sample.start_options Sample.manager_empty
           10000 1 "Free Steam Key");
    try reflexivity; try discriminate; lia.
Defined.

(** ** Persistence *)

Lemma objects_app_heap (ls : list nat) (h extra : list Giveaway) :
  Forall (fun l => (l < length h)%nat) ls ->
  omap (fun l => (h ++ extra) !! l) ls = omap (fun l => h !! l) ls.
Proof.
  induction 1 as [|l ls Hl _ IH]; [done|].
  change (l :: ls) with ([l] ++ ls). rewrite !omap_app, IH. f_equal.
  simpl. by rewrite lookup_app_l.
Qed.

Lemma hydrate_objects (m : Manager) (raw : GiveawayData) :
  valid_refs m ->
  valid_refs (hydrate m raw) /\
  objects (hydrate m raw) = objects m ++ [new_Giveaway raw].
Proof.
  unfold valid_refs, hydrate, objects. simpl. intros Hv. split.
  - apply Forall_app. split.
    + eapply Forall_impl; [exact Hv|]. intros l Hl. simpl in *.
      rewrite length_app. simpl. lia.
    + apply Forall_singleton. rewrite length_app. simpl. lia.
  - rewrite omap_app, objects_app_heap by done. f_equal.
    simpl. by rewrite lookup_app_r, Nat.sub_diag.
Qed.

Lemma hydrate_all_objects (raws : list GiveawayData) :
  forall m, valid_refs m ->
    objects (fold_left hydrate raws m) = objects m ++ map new_Giveaway raws.
Proof.
  induction raws as [|raw raws IH]; intros m Hv; simpl.
  - by rewrite app_nil_r.
  - destruct (hydrate_objects m raw Hv) as [Hv' Ho].
    rewrite IH, Ho by done. by rewrite <- app_assoc.
Qed.

Lemma resaved_same_fields (r : GiveawayData) : same_persisted_fields r (resaved r).
Proof. by repeat split. Qed.

(** A record that was written by the manager is written back as it is. *)
Lemma resaved_written (g : Giveaway) :
  resaved (stringify (data g)) = stringify (data g).
Proof. done. Qed.

(** C8. From the state of a manager before [_init] (an empty collection):
    with no storage file, [getAllGiveaways] creates it holding the empty
    array and yields the empty collection; with a file holding an array of
    records, saving after loading writes one record per record read, in the
    same order, equal to it on every persisted field, and when the file was
    written by a manager the document written back is the very same. *)
Theorem storage_round_trip (m : Manager) (rs : list GiveawayData) :
  giveaways m = [] ->
  (storage m = None ->
   getAllGiveaways m = (set_storage (Some (Document [])) m, Returns []) /\
   objects (_init m) = [] /\ storage (_init m) = Some (Document [])) /\
  (storage m = Some (Document rs) ->
   storage (saveGiveaway (_init m)) = Some (Document (map resaved rs)) /\
   Forall2 same_persisted_fields rs (map resaved rs) /\
   (forall m0, storage m = storage (saveGiveaway m0) ->
               storage (saveGiveaway (_init m)) = storage m)).
Proof.
  intros Hgs.
  assert (Hv : forall s, valid_refs (set_storage s m)).
  { intros s. unfold valid_refs. simpl. rewrite Hgs. constructor. }
  split.
  - intros Hs. unfold _init, getAllGiveaways. rewrite Hs. simpl.
    unfold objects. simpl. by rewrite Hgs.
  - intros Hs.
    assert (Hsave : storage (saveGiveaway (_init m)) = Some (Document (map resaved rs))).
    { unfold _init, getAllGiveaways. rewrite Hs. simpl.
      change (objects (set_ready true (fold_left hydrate rs m)))
        with (objects (fold_left hydrate rs m)).
      rewrite hydrate_all_objects.
      - unfold objects at 1. rewrite Hgs. simpl. by rewrite map_map.
      - unfold valid_refs. rewrite Hgs. constructor. }
    split; [done|]. split.
    + clear. induction rs as [|r rs IH]; simpl; constructor;
        [apply resaved_same_fields | done].
    + intros m0 Hm0. rewrite Hsave, Hs. f_equal. f_equal.
      rewrite Hs in Hm0. inversion Hm0 as [Hrs].
      rewrite map_map. apply map_ext. intros g. apply resaved_written.
Qed.

Lemma storage_round_trip_witness :
  (storage Sample.manager_booting = None ->
   getAllGiveaways Sample.manager_booting
     = (set_storage (Some (Document [])) Sample.manager_booting, Returns []) /\
   objects (_init Sample.manager_booting) = [] /\
   storage (_init Sample.manager_booting) = Some (Document [])) /\
  (storage Sample.manager_booting = Some (Document [Sample.record]) ->
   storage (saveGiveaway (_init Sample.manager_booting))
     = Some (Document (map resaved [Sample.record])) /\
   Forall2 same_persisted_fields [Sample.record] (map resaved [Sample.record]) /\
   (forall m0, storage Sample.manager_booting = storage (saveGiveaway m0) ->
               storage (saveGiveaway (_init Sample.manager_booting))
                 = storage Sample.manager_booting)).
Proof.
  apply (storage_round_trip Sample.manager_booting [Sample.record]). reflexivity.
Defined.

(** * Further properties of the code *)

(** ** The countdown text *)

(** X1. With time left (all readings of the clock equal, [rt > 0]) the
    parts that [content] shows are a mixed-radix reading of [rt]: days
    below 7, hours below 24, minutes and seconds below 60, and weeks, days,
    hours, minutes and the seconds before their adjustment add up to [rt]
    cut to the second.  The seconds shown are never 0: a zero is shown as
    1. *)
Theorem content_parts_positive (rt : Z) :
  0 < rt ->
  let p := content_parts rt rt rt rt rt rt in
  0 <= p_weeks p /\ 0 <= p_days p < 7 /\ 0 <= p_hours p < 24 /\
  0 <= p_minutes p < 60 /\ 1 <= p_seconds p < 60 /\
  exists s,
    0 <= s < 60 /\ (p_seconds p = if s =? 0 then 1 else s) /\
    p_weeks p * 604800000 + p_days p * 86400000 + p_hours p * 3600000
      + p_minutes p * 60000 + s * 1000 = rt - rt mod 1000.
Proof.
  intros Hrt. unfold content_parts, roundTowardsZero, js_floor. simpl.
  assert (H0 : (0 <? rt) = true) by (apply Z.ltb_lt; lia). rewrite H0.
  rewrite !Z.rem_mod_nonneg by (try lia; apply Z.div_pos; lia).
  set (s := (rt / 1000) mod 60).
  assert (Hs : 0 <= s < 60) by (apply Z.mod_pos_bound; lia).
  split; [apply Z.div_pos; lia|].
  split; [apply Z.mod_pos_bound; lia|].
  split; [apply Z.mod_pos_bound; lia|].
  split; [apply Z.mod_pos_bound; lia|].
  split; [destruct (s =? 0) eqn:E; [lia | apply Z.eqb_neq in E; lia]|].
  exists s. split; [done|].
  split; [destruct (s =? 0) eqn:E; [apply Z.eqb_eq in E; lia | done]|].
  subst s. clear H0. Z.div_mod_to_equations. lia.
Qed.

Lemma content_parts_positive_witness :
  let p := content_parts 694861000 694861000 694861000 694861000 694861000 694861000 in
  0 <= p_weeks p /\ 0 <= p_days p < 7 /\ 0 <= p_hours p < 24 /\
  0 <= p_minutes p < 60 /\ 1 <= p_seconds p < 60 /\
  exists s,
    0 <= s < 60 /\ (p_seconds p = if s =? 0 then 1 else s) /\
    p_weeks p * 604800000 + p_days p * 86400000 + p_hours p * 3600000
      + p_minutes p * 60000 + s * 1000 = 694861000 - 694861000 mod 1000.
Proof. apply (content_parts_positive 694861000). lia. Defined.

Lemma js_ceil_nonpos (x u : Z) : x <= 0 -> 0 < u -> js_ceil x u <= 0.
Proof.
  intros Hx Hu. unfold js_ceil.
  assert (0 <= (- x) / u) by (apply Z.div_pos; lia). lia.
Qed.

Lemma rem_nonpos (a b : Z) : a <= 0 -> 0 < b -> Z.rem a b <= 0.
Proof.
  intros Ha Hb. replace a with (- (- a)) by lia.
  rewrite Z.rem_opp_l' .
  assert (0 <= Z.rem (- a) b) by (apply Z.rem_nonneg; lia). lia.
Qed.

(** X2. Once the end time is reached (all readings equal, [rt <= 0]) no
    part is positive except the seconds, which are 1 when they would be 0:
    the pattern of [content] is the seconds segment alone, with the
    singular unit. *)
Theorem content_after_expiry (units : Units) (rt : Z) :
  rt <= 0 ->
  let p := content_parts rt rt rt rt rt rt in
  p_weeks p <= 0 /\ p_days p <= 0 /\ p_hours p <= 0 /\ p_minutes p <= 0 /\
  p_seconds p <= 1 /\ p_seconds p <> 0 /\
  content_pattern units p
    = ("{seconds} " ++ unit_for units (p_seconds p) (unit_seconds units))%string /\
  unit_for units (p_seconds p) (unit_seconds units)
    = unit_for units 1 (unit_seconds units).
Proof.
  intros Hrt. unfold content_parts, roundTowardsZero. simpl.
  assert (H0 : (0 <? rt) = false) by (apply Z.ltb_ge; lia). rewrite H0.
  assert (Hw : js_ceil rt 604800000 <= 0) by (apply js_ceil_nonpos; lia).
  assert (Hd : Z.rem (js_ceil rt 86400000) 7 <= 0)
    by (apply rem_nonpos; [apply js_ceil_nonpos|]; lia).
  assert (Hh : Z.rem (js_ceil rt 3600000) 24 <= 0)
    by (apply rem_nonpos; [apply js_ceil_nonpos|]; lia).
  assert (Hm : Z.rem (js_ceil rt 60000) 60 <= 0)
    by (apply rem_nonpos; [apply js_ceil_nonpos|]; lia).
  assert (Hs : Z.rem (js_ceil rt 1000) 60 <= 0)
    by (apply rem_nonpos; [apply js_ceil_nonpos|]; lia).
  set (s := Z.rem (js_ceil rt 1000) 60) in *.
  assert (Hsec : (if s =? 0 then s + 1 else s) <= 1 /\ (if s =? 0 then s + 1 else s) <> 0).
  { destruct (s =? 0) eqn:E; [apply Z.eqb_eq in E | apply Z.eqb_neq in E]; lia. }
  destruct Hsec as [Hs1 Hs0].
  repeat split; try done.
  - unfold content_pattern. simpl.
    by rewrite !(proj2 (Z.ltb_ge 0 _)) by done.
  - unfold unit_for.
    by rewrite !(proj2 (Z.ltb_lt _ 2)) by lia.
Qed.

Lemma content_after_expiry_witness :
  let units := mkUnits false "weeks" "days" "hours" "minutes" "seconds" in
  let p := content_parts (-5000) (-5000) (-5000) (-5000) (-5000) (-5000) in
  p_weeks p <= 0 /\ p_days p <= 0 /\ p_hours p <= 0 /\ p_minutes p <= 0 /\
  p_seconds p <= 1 /\ p_seconds p <> 0 /\
  content_pattern units p
    = ("{seconds} " ++ unit_for units (p_seconds p) (unit_seconds units))%string /\
  unit_for units (p_seconds p) (unit_seconds units)
    = unit_for units 1 (unit_seconds units).
Proof.
  apply (content_after_expiry
           (mkUnits false "weeks" "days" "hours" "minutes" "seconds") (-5000)).
  lia.
Defined.

(** ** The eligible set, filter by filter *)

Section EligibleExactly.
Variable w : World.
Variable mo : ManagerDefaults.
Variable g : Giveaway.
Variable guild : Guild.

Lemma elem_of_filter_bool {A : Type} (p : A -> bool) (l : list A) (x : A) :
  x ∈ List.filter p l <-> x ∈ l /\ p x = true.
Proof. rewrite !list_elem_of_In. apply filter_In. Qed.

Lemma drop_exempt_answers (snapshot : list User) :
  forall users users',
    drop_exempt mo g guild snapshot users = Returns users' ->
    forall s, s ∈ snapshot ->
      exists member b, guild_member guild (u_id s) = Some member /\
                       exemptMembers mo g member = Returns b.
Proof.
  induction snapshot as [|s0 rest IH]; simpl; intros users users' H s Hs.
  - by apply elem_of_nil in Hs.
  - destruct (guild_member guild (u_id s0)) as [member|] eqn:Em; [|discriminate].
    destruct (exemptMembers mo g member) as [b|] eqn:Ee; [|discriminate].
    apply elem_of_cons in Hs as [->|Hs].
    + exists member, b. by rewrite Em.
    + by eapply IH.
Qed.

Lemma drop_exempt_spec (snapshot : list User) :
  forall users users',
    drop_exempt mo g guild snapshot users = Returns users' ->
    forall u, u ∈ users' <->
              u ∈ users /\
              ~ exists s, s ∈ snapshot /\ u_id s = u_id u /\ exempt mo g guild s.
Proof.
  induction snapshot as [|s0 rest IH]; simpl; intros users users' H u.
  - inversion H; subst. split; [|by intros [? _]].
    intros Hu. split; [done|]. intros (s & Hs & _). by apply elem_of_nil in Hs.
  - destruct (guild_member guild (u_id s0)) as [member|] eqn:Em; [|discriminate].
    destruct (exemptMembers mo g member) as [b|] eqn:Ee; [|discriminate].
    rewrite (IH _ _ H u). clear IH H. destruct b.
    + unfold coll_delete. rewrite elem_of_filter_bool, negb_true_iff, String.eqb_neq.
      split.
      * intros [[Hu Hne] Hrest]. split; [done|].
        intros (s & Hs & Hid & Hex). apply elem_of_cons in Hs as [->|Hs].
        -- by apply Hne.
        -- apply Hrest. by exists s.
      * intros [Hu Hno]. split; [split; [done|]|].
        -- intros Hid. apply Hno. exists s0. split; [by left|].
           split; [done|]. exists member. by rewrite Em.
        -- intros (s & Hs & Hid & Hex). apply Hno. exists s.
           split; [by right | done].
    + split; intros [Hu Hno]; (split; [done|]).
      * intros (s & Hs & Hid & Hex). apply elem_of_cons in Hs as [->|Hs].
        -- destruct Hex as (member' & Em' & Ee'). congruence.
        -- apply Hno. by exists s.
      * intros (s & Hs & Hid & Hex). apply Hno. exists s.
        split; [by right | done].
Qed.

Lemma no_exempt_permission_spec (perms : list Permission) (u : User)
    (member : GuildMember) :
  guild_member guild (u_id u) = Some member ->
  no_exempt_permission guild perms u = true <->
  forall p, p ∈ perms -> hasPermission member p = false.
Proof.
  intros Em. unfold no_exempt_permission. rewrite negb_true_iff.
  rewrite <- not_true_iff_false, existsb_exists. rewrite Em. split.
  - intros Hno p Hp. apply not_true_iff_false. intros Hh. apply Hno.
    exists p. split; [by apply list_elem_of_In | done].
  - intros Hall (p & Hp & Hh). apply list_elem_of_In in Hp.
    rewrite (Hall p Hp) in Hh. discriminate.
Qed.

End EligibleExactly.

(** X4. For a giveaway with a fetched message that carries the configured
    reaction, in a channel that resolves: when the eligible set is computed,
    a user is in it exactly when the platform reports them for the reaction
    and they pass every filter, that is their bot flag equals [botsCanWin],
    they are not this process, they are a member of the guild, the exemption
    predicate returned [false] for that member, and there is a list of
    exempt permissions of which the member holds none. *)
Theorem eligible_exactly
    (w : World) (mo : ManagerDefaults) (g : Giveaway) (msg : Message)
    (k : string) (r : MessageReaction) (c : TextChannel) (el : Collection) :
  message g = Some msg -> reaction mo g = Some k -> attached msg k r ->
  get_channel w (channelID g) = Some c ->
  eligible w mo g = Returns el ->
  forall u, u ∈ el <-> u ∈ fetchUsers r /\ passes mo g msg (ch_guild c) u.
Proof.
  intros Hmsg Hk Ha Hc H.
  pose proof (attached_find msg k r Ha) as Hr. rewrite <- Hk in Hr.
  unfold eligible in H. rewrite Hmsg, Hr, Hc in H.
  set (users := List.filter _ _) in H.
  destruct (drop_exempt mo g (ch_guild c) users users) as [users'|] eqn:Ed;
    [|discriminate].
  destruct (exemptPermissions mo g) as [perms|] eqn:Ep.
  2:{ destruct users' as [|u0 rest]; [|discriminate]. inversion H; subst el.
      intros u. split; [by intros Hu%elem_of_nil|].
      intros (_ & _ & _ & member & perms & _ & _ & Hp & _). congruence. }
  inversion H; subst el. clear H. intros u.
  assert (Husers : u ∈ users <->
            u ∈ fetchUsers r /\ Some (u_bot u) = botsCanWin mo g /\
            u_id u <> msg_client_user msg /\
            guild_member (ch_guild c) (u_id u) <> None).
  { subst users. rewrite !elem_of_filter_bool, !bool_decide_eq_true.
    unfold not_self. rewrite negb_true_iff, String.eqb_neq. tauto. }
  rewrite elem_of_filter_bool, (drop_exempt_spec mo g (ch_guild c) users users users' Ed).
  rewrite Husers. unfold passes. split.
  - intros [[(Hin & Hbot & Hself & Hmem) Hnoex] Hperm].
    split; [done|]. split; [done|]. split; [done|].
    destruct (drop_exempt_answers mo g (ch_guild c) users users users' Ed u)
      as (member & b & Em & Ee); [by apply Husers|].
    exists member, perms. split; [done|]. split; [|split; [done|]].
    + destruct b; [|done]. exfalso. apply Hnoex. exists u.
      split; [by apply Husers|]. split; [done|]. by exists member.
    + by apply (no_exempt_permission_spec (ch_guild c) perms u member).
  - intros (Hin & Hbot & Hself & member & perms' & Em & Ee & Hp & Hperm).
    assert (perms' = perms) as -> by congruence.
    split; [split|].
    + split; [done|]. split; [done|]. split; [done|]. by rewrite Em.
    + intros (s & Hs & Hid & member' & Em' & Ee'). rewrite Hid, Em in Em'.
      inversion Em'; subst member'. congruence.
    + by apply (no_exempt_permission_spec (ch_guild c) perms u member).
Qed.

Lemma eligible_exactly_witness :
  eligible Sample.world Sample.manager_defaults Sample.fetched
    = Returns [mkUser "1" false; mkUser "2" false; mkUser "3" false] /\
  forall u, u ∈ [mkUser "1" false; mkUser "2" false; mkUser "3" false] <->
            u ∈ fetchUsers Sample.tada /\
            passes Sample.manager_defaults Sample.fetched Sample.announcement
              (ch_guild Sample.channel) u.
Proof.
  split; [reflexivity|].
  apply (eligible_exactly Sample.world Sample.manager_defaults Sample.fetched
           Sample.announcement "tada" Sample.tada Sample.channel); try reflexivity.
  left. exists [], []. split; [reflexivity|]. split; [reflexivity | constructor].
Defined.

(** ** [fetchMessage] *)

Lemma without_messageID_iff (id : option Snowflake) (m : Manager) (l : nat) :
  l ∈ without_messageID id m <->
  l ∈ giveaways m /\ exists g, heap m !! l = Some g /\ messageID g <> id.
Proof.
  split; [apply without_messageID_spec|].
  intros (Hin & g & Hg & Hne). unfold without_messageID.
  apply elem_of_filter_bool. split; [done|]. rewrite Hg.
  by apply negb_true_iff, bool_decide_eq_false.
Qed.

(** X5. When [fetchMessage] rejects, no giveaway object has changed, the
    collection has lost exactly the giveaways that carry the message id of
    [this] (the others keep their order), and the storage file has been
    rewritten from what is left. *)
Theorem fetchMessage_rejected_prunes
    (w : World) (this : nat) (m m' : Manager) (reason : string) :
  fetchMessage w this m = (m', Rejected reason) ->
  exists g,
    heap m !! this = Some g /\
    reason = msg_unable_fetch (messageID g) /\
    heap m' = heap m /\
    giveaways m' `sublist_of` giveaways m /\
    (forall l, l ∈ giveaways m' <->
               l ∈ giveaways m /\
               exists g', heap m !! l = Some g' /\ messageID g' <> messageID g) /\
    in_sync m'.
Proof.
  unfold fetchMessage. intros H.
  destruct (heap m !! this) as [g|] eqn:Hg; [|discriminate].
  destruct (falsy_id (messageID g)); [discriminate|].
  destruct (get_channel w (channelID g)); [|discriminate].
  destruct (fetch_message _ _); [discriminate|].
  inversion H; subst. exists g. split; [done|]. split; [done|]. split; [done|].
  split; [apply filter_sublist|]. split; [|done].
  intros l. apply (without_messageID_iff (messageID g) m l).
Qed.

Lemma fetchMessage_rejected_prunes_witness :
  exists g,
    heap Sample.manager !! 0%nat = Some g /\
    "Unable to fetch message with ID m1." = msg_unable_fetch (messageID g) /\
    heap (fetchMessage Sample.world_gone 0 Sample.manager).1 = heap Sample.manager /\
    giveaways (fetchMessage Sample.world_gone 0 Sample.manager).1
      `sublist_of` giveaways Sample.manager /\
    (forall l, l ∈ giveaways (fetchMessage Sample.world_gone 0 Sample.manager).1 <->
               l ∈ giveaways Sample.manager /\
               exists g', heap Sample.manager !! l = Some g' /\
                          messageID g' <> messageID g) /\
    in_sync (fetchMessage Sample.world_gone 0 Sample.manager).1.
Proof.
  apply (fetchMessage_rejected_prunes Sample.world_gone 0 Sample.manager).
  reflexivity.
Defined.

(** X6. When [fetchMessage] resolves, the message it resolves with has the
    message id of the record and is now the cached handle of [this];
    nothing else has changed: not the collection, not the storage file, not
    another object, and no field of the record of [this]. *)
Theorem fetchMessage_resolved_caches
    (w : World) (this : nat) (m m' : Manager) (msg : Message) :
  fetchMessage w this m = (m', Resolved msg) ->
  exists g,
    heap m !! this = Some g /\
    messageID g = Some (msg_id msg) /\
    heap m' !! this = Some (set_message (Some msg) g) /\
    (forall l, l <> this -> heap m' !! l = heap m !! l) /\
    giveaways m' = giveaways m /\ storage m' = storage m /\
    emitted m' = emitted m.
Proof.
  unfold fetchMessage. intros H.
  destruct (heap m !! this) as [g|] eqn:Hg; [|discriminate].
  destruct (messageID g) as [id|] eqn:Hid; [|discriminate]. simpl in H.
  destruct (negb (truthyS id)); [discriminate|].
  destruct (get_channel w (channelID g)) as [c|]; [|discriminate].
  destruct (fetch_message c id) as [msg'|] eqn:Hf; [|discriminate].
  inversion H; subst. exists g. split; [done|].
  unfold fetch_message in Hf. apply find_some in Hf as [_ Hf].
  apply String.eqb_eq in Hf. split; [by rewrite Hf|].
  split; [by apply heap_update_eq|].
  split; [intros l Hne; by apply heap_update_ne|].
  destruct (update_fields this (set_message (Some msg)) m) as (? & ? & _ & ? & _).
  done.
Qed.

Lemma fetchMessage_resolved_caches_witness :
  exists g,
    heap Sample.manager !! 0%nat = Some g /\
    messageID g = Some (msg_id Sample.announcement) /\
    heap (fetchMessage Sample.world 0 Sample.manager).1 !! 0%nat
      = Some (set_message (Some Sample.announcement) g) /\
    (forall l, l <> 0%nat ->
       heap (fetchMessage Sample.world 0 Sample.manager).1 !! l
       = heap Sample.manager !! l) /\
    giveaways (fetchMessage Sample.world 0 Sample.manager).1 = giveaways Sample.manager /\
    storage (fetchMessage Sample.world 0 Sample.manager).1 = storage Sample.manager /\
    emitted (fetchMessage Sample.world 0 Sample.manager).1 = emitted Sample.manager.
Proof.
  apply (fetchMessage_resolved_caches Sample.world 0 Sample.manager).
  reflexivity.
Defined.

(** ** Records without a message id *)

(** X7. On a giveaway whose record has no message id, in a channel that
    resolves, [fetchMessage] never settles, and neither does a method that
    awaits it: [edit] and [reroll] stay pending with nothing changed; [end]
    stays pending after it has set [ended] on the object, so that the
    storage file, which is not rewritten, still holds the record as not
    ended. *)
Theorem methods_without_message_id_never_settle
    (w : World) (this : nat) (m : Manager) (g : Giveaway) :
  heap m !! this = Some g -> falsy_id (messageID g) = true ->
  get_channel w (channelID g) <> None ->
  fetchMessage w this m = (m, Pending) /\
  (forall o, ended g = false -> edit w o this m = (m, Pending)) /\
  (forall o draws, ended g = true -> reroll w o draws this m = (m, Pending)) /\
  (forall draws, ended g = false ->
     end_ w draws this m = (update this (set_ended true) m, Pending) /\
     heap (end_ w draws this m).1 !! this = Some (set_ended true g) /\
     storage (end_ w draws this m).1 = storage m).
Proof.
  intros Hg Hid Hc.
  assert (Hb : bool_decide (get_channel w (channelID g) = None) = false)
    by (by apply bool_decide_eq_false).
  assert (Hf : fetchMessage w this m = (m, Pending)).
  { unfold fetchMessage. by rewrite Hg, Hid. }
  split; [done|]. split; [|split].
  - intros o He. unfold edit, edit_resume. by rewrite Hg, He, Hb, Hf.
  - intros o draws He. unfold reroll. by rewrite Hg, He, Hb, Hf.
  - intros draws He.
    assert (Hg0 : heap (update this (set_ended true) m) !! this = Some (set_ended true g))
      by (by apply heap_update_eq).
    assert (He' : end_ w draws this m = (update this (set_ended true) m, Pending)).
    { unfold end_. rewrite Hg, He, Hb.
      unfold fetchMessage. rewrite Hg0. simpl. by rewrite Hid. }
    rewrite He'. split; [done|]. split; [done|]. simpl.
    apply update_fields.
Qed.

Lemma methods_without_message_id_never_settle_witness :
  fetchMessage Sample.world 0 Cases.manager_unposted = (Cases.manager_unposted, Pending) /\
  (forall o, ended Cases.unposted = false ->
     edit Sample.world o 0 Cases.manager_unposted = (Cases.manager_unposted, Pending)) /\
  (forall o draws, ended Cases.unposted = true ->
     reroll Sample.world o draws 0 Cases.manager_unposted
       = (Cases.manager_unposted, Pending)) /\
  (forall draws, ended Cases.unposted = false ->
     end_ Sample.world draws 0 Cases.manager_unposted
       = (update 0 (set_ended true) Cases.manager_unposted, Pending) /\
     heap (end_ Sample.world draws 0 Cases.manager_unposted).1 !! 0%nat
       = Some (set_ended true Cases.unposted) /\
     storage (end_ Sample.world draws 0 Cases.manager_unposted).1
       = storage Cases.manager_unposted).
Proof.
  apply (methods_without_message_id_never_settle Sample.world 0
           Cases.manager_unposted Cases.unposted); [reflexivity | reflexivity |].
  vm_compute. discriminate.
Defined.

(** ** [edit] that does not resolve *)

(** X8. Whatever [edit] is given, it either resolves, and then the storage
    file holds the persisted view of the collection, or it changes no field
    of any record (a cached message handle at most); when it rejects because
    the giveaway has ended or its channel does not resolve, the manager is
    exactly as before. *)
Theorem edit_resolves_or_keeps_records
    (w : World) (o : GiveawayEditOptions) (this : nat) (m : Manager) :
  match (edit w o this m).2 with
  | Resolved _ => in_sync (edit w o this m).1
  | _ => heap_rel same_record m (edit w o this m).1
  end /\
  (forall g, heap m !! this = Some g ->
     ended g = true \/ get_channel w (channelID g) = None ->
     exists reason, edit w o this m = (m, Rejected reason)).
Proof.
  split.
  - unfold edit, edit_resume.
    destruct (heap m !! this) as [g|] eqn:Hg; [|by apply heap_rel_refl].
    destruct (ended g); [by apply heap_rel_refl|].
    destruct (bool_decide _); [by apply heap_rel_refl|].
    pose proof (fetchMessage_same_record w this m) as Hf.
    destruct (fetchMessage w this m) as [m1 out]. simpl in Hf.
    destruct out; simpl; try done;
      (destruct (heap m1 !! this) as [g1|]; [|done]);
      by destruct (message g1).
  - intros g Hg [He|Hc]; unfold edit; rewrite Hg.
    + rewrite He. by eexists.
    + destruct (ended g); [by eexists|].
      rewrite (bool_decide_eq_true_2 _ Hc). by eexists.
Qed.

(** ** [end] that resolves, and [end] again *)

Lemma roll_returns_eligible (w : World) (mo : ManagerDefaults) (g : Giveaway)
    (count : option Z) (draws : list nat) (winners : list (option GuildMember)) :
  roll w mo g count draws = Returns winners ->
  exists el, eligible w mo g = Returns el.
Proof. unfold roll. destruct (eligible w mo g) as [el|]; [by exists el | done]. Qed.

(** X9. When [end] resolves, the object is ended and keeps its terms, one
    [giveawayEnded] signal has been emitted for it, carrying the winners,
    which are distinct members and no more than [winnerCount]; the promise
    carries those winners, or [undefined] when there is none; and the
    storage file holds the persisted view of the collection. *)
Theorem end_resolved_effects
    (w : World) (draws : list nat) (this : nat) (m m' : Manager) (g : Giveaway)
    (result : option (list (option GuildMember))) :
  heap m !! this = Some g ->
  end_ w draws this m = (m', Resolved result) ->
  exists g' winners,
    heap m' !! this = Some g' /\ ended g' = true /\ terms g' = terms g /\
    emitted m' = emitted m ++ [giveawayEnded this (map Some winners)] /\
    result = (if winners is [] then None else Some (map Some winners)) /\
    NoDup winners /\ Z.of_nat (length winners) <= Z.max 0 (winnerCount g) /\
    in_sync m'.
Proof.
  intros Hg H. unfold end_ in H. rewrite Hg in H.
  destruct (ended g) eqn:He; [discriminate|].
  destruct (bool_decide _); [discriminate|].
  set (m0 := update this (set_ended true) m) in *.
  assert (Hg0 : heap m0 !! this = Some (set_ended true g)) by (by apply heap_update_eq).
  destruct (fetchMessage_this w this m0 _ Hg0) as (g1 & Hg1 & Hrec).
  assert (Hem : emitted (fetchMessage w this m0).1 = emitted m).
  { unfold fetchMessage. rewrite Hg0.
    destruct (falsy_id _); [apply update_fields|].
    destruct (get_channel _ _); [|apply update_fields].
    destruct (fetch_message _ _); simpl.
    - etrans; apply update_fields.
    - apply update_fields. }
  destruct (fetchMessage w this m0) as [m1 out]. simpl in *.
  assert (H' : match message g1 with
               | None => (m1, Rejected (msg_unable_fetch (messageID g1)))
               | Some _ =>
                   match roll w (defaults m1) g1 None draws with
                   | Throws _ => (m1, Pending)
                   | Returns winners =>
                       match ValidEntry w (defaults m1) g1 with
                       | Throws _ => (m1, Pending)
                       | Returns _ =>
                           let m2 := editGiveaway (emit (giveawayEnded this winners) m1) in
                           if (0 <? length winners)%nat
                           then (m2, Resolved (Some winners))
                           else (m2, Resolved None)
                       end
                   end
               end = (m', Resolved result)).
  { destruct out; [| |discriminate]; by rewrite Hg1 in H. }
  clear H. destruct (message g1); [|discriminate].
  destruct (roll w (defaults m1) g1 None draws) as [ws|] eqn:Er; [|discriminate].
  destruct (ValidEntry w (defaults m1) g1); [|discriminate].
  destruct (roll_returns_eligible _ _ _ _ _ _ Er) as [el Hel].
  destruct (roll_draws_from_eligible w (defaults m1) g1 None draws el ws Hel Er)
    as (winners & -> & _ & Hmax & Hnd & _ & _).
  assert (Hterms : terms g1 = terms g /\ ended g1 = true).
  { unfold record_of in Hrec. destruct g1, g. by inversion Hrec. }
  destruct Hterms as [Ht He1].
  assert (Hwc : winnerCount g1 = winnerCount g) by (by inversion Ht).
  exists g1, winners.
  assert (Hres : m' = editGiveaway (emit (giveawayEnded this (map Some winners)) m1) /\
                 result = (if winners is [] then None else Some (map Some winners))).
  { destruct winners; simpl in H'; by inversion H'. }
  destruct Hres as [-> ->].
  split; [done|]. split; [done|]. split; [done|].
  split; [simpl; by rewrite Hem|]. split; [done|]. split; [done|].
  split; [|done]. change (roll_amount g1 None) with (winnerCount g1) in Hmax. lia.
Qed.

Lemma end_resolved_effects_witness :
  exists g' winners,
    heap (end_ Sample.world [1%nat; 0%nat] 0 Sample.manager).1 !! 0%nat = Some g' /\
    ended g' = true /\ terms g' = terms Sample.fresh /\
    emitted (end_ Sample.world [1%nat; 0%nat] 0 Sample.manager).1
      = emitted Sample.manager ++ [giveawayEnded 0 (map Some winners)] /\
    Some [Some (mkMember "2" ["ADMINISTRATOR"]); Some (mkMember "1" [])]
      = (if winners is [] then None else Some (map Some winners)) /\
    NoDup winners /\ Z.of_nat (length winners) <= Z.max 0 (winnerCount Sample.fresh) /\
    in_sync (end_ Sample.world [1%nat; 0%nat] 0 Sample.manager).1.
Proof.
  apply (end_resolved_effects Sample.world [1%nat; 0%nat] 0 Sample.manager _
           Sample.fresh); reflexivity.
Defined.

Lemma end_marks_ended (w : World) (draws : list nat) (this : nat) (m : Manager)
    (g : Giveaway) :
  heap m !! this = Some g -> ended g = false ->
  get_channel w (channelID g) <> None ->
  exists g', heap (end_ w draws this m).1 !! this = Some g' /\
             record_of g' = record_of (set_ended true g).
Proof.
  intros Hg He Hc. unfold end_. rewrite Hg, He.
  rewrite (bool_decide_eq_false_2 _ Hc).
  set (m0 := update this (set_ended true) m).
  assert (Hg0 : heap m0 !! this = Some (set_ended true g)) by (by apply heap_update_eq).
  destruct (fetchMessage_this w this m0 _ Hg0) as (g1 & Hg1 & Hrec).
  destruct (fetchMessage w this m0) as [m1 out]. simpl in *.
  exists g1. split; [|done].
  destruct out; simpl; try done; rewrite Hg1;
    (destruct (message g1); [|done]);
    (destruct (roll w (defaults m1) g1 None draws) as [winners|]; [|done]);
    (destruct (ValidEntry w (defaults m1) g1); [|done]);
    by destruct (0 <? length winners)%nat.
Qed.

(** X10. Once [end] has been called on a non-ended giveaway whose channel
    resolves, however that call settles (winners, no winner, message not
    found, or never), any later call of [end] on the object rejects with the
    already-ended message and changes nothing. *)
Theorem end_is_not_recallable
    (w w' : World) (draws draws' : list nat) (this : nat) (m : Manager)
    (g : Giveaway) :
  heap m !! this = Some g -> ended g = false ->
  get_channel w (channelID g) <> None ->
  end_ w' draws' this (end_ w draws this m).1
  = ((end_ w draws this m).1, Rejected (msg_already_ended (messageID g))).
Proof.
  intros Hg He Hc.
  destruct (end_marks_ended w draws this m g Hg He Hc) as (g' & Hg' & Hrec).
  assert (Hfields : ended g' = true /\ messageID g' = messageID g).
  { unfold record_of in Hrec. destruct g', g. by inversion Hrec. }
  destruct Hfields as [He' Hid].
  unfold end_ at 1. by rewrite Hg', He', Hid.
Qed.

Lemma end_is_not_recallable_witness :
  end_ Sample.world_gone [] 0 (end_ Sample.world [1%nat] 0 Sample.manager).1
  = ((end_ Sample.world [1%nat] 0 Sample.manager).1,
     Rejected (msg_already_ended (messageID Sample.fresh))).
Proof.
  apply (end_is_not_recallable Sample.world Sample.world_gone [1%nat] [] 0
           Sample.manager Sample.fresh); [reflexivity | reflexivity |].
  vm_compute. discriminate.
Defined.

(** ** [delete] *)

Lemma find_giveaway_Some (id : option Snowflake) (m : Manager) (l : nat) :
  find_giveaway id m = Some l ->
  l ∈ giveaways m /\ exists g, heap m !! l = Some g /\ messageID g = id.
Proof.
  unfold find_giveaway. intros H. apply find_some in H as [Hin Hb].
  split; [by apply list_elem_of_In|].
  destruct (heap m !! l) as [g|]; [|discriminate].
  exists g. split; [done|]. by apply bool_decide_eq_true in Hb.
Qed.

Lemma find_giveaway_None (id : option Snowflake) (m : Manager) :
  find_giveaway id m = None <->
  forall l g, l ∈ giveaways m -> heap m !! l = Some g -> messageID g <> id.
Proof.
  unfold find_giveaway. split.
  - intros H l g Hin Hg Hid.
    pose proof (find_none _ _ H l (proj1 (list_elem_of_In _ _) Hin)) as Hb.
    simpl in Hb. rewrite Hg in Hb. by apply bool_decide_eq_false in Hb.
  - intros H. destruct (find _ _) as [l|] eqn:Ef; [|done].
    apply find_some in Ef as [Hin Hb].
    destruct (heap m !! l) as [g|] eqn:Hg; [|discriminate].
    apply bool_decide_eq_true in Hb. exfalso.
    by apply (H l g); [apply list_elem_of_In|..].
Qed.

Lemma messageID_after_fetch (w : World) (this l : nat) (m : Manager) :
  messageID <$> heap (fetchMessage w this m).1 !! l = messageID <$> heap m !! l.
Proof.
  destruct (decide (l = this)) as [->|Hne]; [|by rewrite fetchMessage_other].
  destruct (heap m !! this) as [g|] eqn:Hg.
  - destruct (fetchMessage_this w this m g Hg) as (g1 & Hg1 & Hrec).
    rewrite Hg1. simpl. f_equal. unfold record_of in Hrec.
    destruct g1, g. by inversion Hrec.
  - unfold fetchMessage. rewrite Hg. simpl. by rewrite Hg.
Qed.

Lemma fetchMessage_giveaways (w : World) (this : nat) (m : Manager) :
  giveaways (fetchMessage w this m).1 = giveaways m \/
  exists g, heap m !! this = Some g /\
            giveaways (fetchMessage w this m).1 = without_messageID (messageID g) m.
Proof.
  unfold fetchMessage.
  destruct (heap m !! this) as [g|] eqn:Hg; [|by left].
  destruct (falsy_id (messageID g)); [by left|].
  destruct (get_channel w (channelID g)); [|by left].
  destruct (fetch_message _ _); simpl.
  - left. apply update_fields.
  - right. by exists g.
Qed.

Lemma objects_elem (m : Manager) (g : Giveaway) :
  g ∈ objects m -> exists l, l ∈ giveaways m /\ heap m !! l = Some g.
Proof. unfold objects. intros H. by apply list_elem_of_omap in H. Qed.

(** The records of a file in step with a collection that holds no giveaway
    with a given message id. *)
Lemma in_sync_no_id (m : Manager) (id : option Snowflake) :
  in_sync m ->
  (forall l g, l ∈ giveaways m -> heap m !! l = Some g -> messageID g <> id) ->
  forall rs r, storage m = Some (Document rs) -> r ∈ rs -> d_messageID r <> id.
Proof.
  intros Hs Hno rs r Hrs Hr. rewrite Hs in Hrs. inversion Hrs; subst rs.
  apply list_elem_of_In, in_map_iff in Hr as (g & <- & Hg).
  apply list_elem_of_In, objects_elem in Hg as (l & Hl & Hg). simpl.
  by apply (Hno l g).
Qed.

Lemma has_other_id_after_fetch (w : World) (this l : nat) (m : Manager)
    (id : option Snowflake) :
  (exists g1, heap (fetchMessage w this m).1 !! l = Some g1 /\ messageID g1 <> id) <->
  (exists g, heap m !! l = Some g /\ messageID g <> id).
Proof.
  pose proof (messageID_after_fetch w this l m) as H.
  destruct (heap (fetchMessage w this m).1 !! l) as [g1|],
           (heap m !! l) as [g|]; simpl in H; try discriminate.
  - inversion H as [Hid]. split; intros (? & Heq & Hne); inversion Heq; subst;
      eexists; (split; [done|]); congruence.
  - split; intros (? & ? & _); discriminate.
Qed.

Lemma prune_after_fetch (w : World) (this : nat) (m : Manager) (g : Giveaway) :
  heap m !! this = Some g ->
  let m1 := (fetchMessage w this m).1 in
  without_messageID (messageID g) m1 `sublist_of` giveaways m /\
  forall l, l ∈ without_messageID (messageID g) m1 <->
            l ∈ giveaways m /\
            exists g', heap m !! l = Some g' /\ messageID g' <> messageID g.
Proof.
  intros Hg m1.
  assert (Hgs : giveaways m1 = giveaways m \/
                giveaways m1 = without_messageID (messageID g) m).
  { subst m1.
    destruct (fetchMessage_giveaways w this m) as [?|(g0 & Hg0 & ?)]; [by left|].
    right. rewrite Hg in Hg0. by inversion Hg0; subst g0. }
  split.
  - etrans; [apply filter_sublist|].
    destruct Hgs as [->| ->]; [done | apply filter_sublist].
  - intros l. rewrite without_messageID_iff.
    unfold m1 at 2. rewrite has_other_id_after_fetch.
    destruct Hgs as [->| ->]; [done|].
    rewrite without_messageID_iff. tauto.
Qed.

(** X11. When [delete] resolves, the collection has lost exactly the
    giveaways with the message id given (the others keep their order), the
    storage file has been rewritten from what is left and holds no record
    with that id, and no field of any record has changed; with
    [doNotDeleteMessage] no deletion of a message is asked for. *)
Theorem manager_delete_removes
    (w : World) (id : option Snowflake) (doNotDeleteMessage : bool)
    (m m' : Manager) (deleted : option Message) :
  manager_delete w id doNotDeleteMessage m = (m', Resolved deleted) ->
  (forall l, l ∈ giveaways m' <->
             l ∈ giveaways m /\ exists g, heap m !! l = Some g /\ messageID g <> id) /\
  giveaways m' `sublist_of` giveaways m /\
  heap_rel same_record m m' /\ in_sync m' /\
  (forall rs r, storage m' = Some (Document rs) -> r ∈ rs -> d_messageID r <> id) /\
  (doNotDeleteMessage = true -> deleted = None).
Proof.
  unfold manager_delete. intros H.
  destruct (find_giveaway id m) as [l|] eqn:Ef; [|discriminate].
  destruct (find_giveaway_Some id m l Ef) as (_ & g & Hg & Hid).
  rewrite Hg in H. destruct (bool_decide _); [discriminate|].
  assert (Hgoal : forall m1,
            m' = deleteGiveaway (set_giveaways (without_messageID id m1) m1) ->
            (without_messageID id m1 `sublist_of` giveaways m /\
             forall l', l' ∈ without_messageID id m1 <->
                        l' ∈ giveaways m /\
                        exists g', heap m !! l' = Some g' /\ messageID g' <> id) ->
            heap_rel same_record m m1 ->
            (forall l, l ∈ giveaways m' <->
               l ∈ giveaways m /\ exists g, heap m !! l = Some g /\ messageID g <> id) /\
            giveaways m' `sublist_of` giveaways m /\
            heap_rel same_record m m' /\ in_sync m' /\
            (forall rs r, storage m' = Some (Document rs) -> r ∈ rs -> d_messageID r <> id)).
  { intros m1 -> [Hsub Hmem] Hrel.
    split; [exact Hmem|]. split; [exact Hsub|]. split; [exact Hrel|].
    split; [done|]. apply in_sync_no_id; [done|].
    intros l' g' Hin Hg'. simpl in Hin, Hg'.
    apply without_messageID_iff in Hin as (_ & g'' & Hg'' & Hne). congruence. }
  destruct doNotDeleteMessage.
  - inversion H; subst. 
    destruct (Hgoal m eq_refl) as (? & ? & ? & ? & ?).
    + split; [apply filter_sublist | apply without_messageID_iff].
    + by apply heap_rel_refl.
    + done.
  - pose proof (prune_after_fetch w l m g Hg) as Hp.
    pose proof (fetchMessage_same_record w l m) as Hrel.
    rewrite Hid in Hp.
    destruct (fetchMessage w l m) as [m1 out]. simpl in *.
    destruct out; [| |discriminate]; inversion H; subst;
      destruct (Hgoal m1 eq_refl Hp Hrel) as (? & ? & ? & ? & ?); done.
Qed.

Lemma manager_delete_removes_witness :
  let m' := (manager_delete Sample.world (Some "m1") false Cases.manager_two).1 in
  (forall l, l ∈ giveaways m' <->
             l ∈ giveaways Cases.manager_two /\
             exists g, heap Cases.manager_two !! l = Some g /\ messageID g <> Some "m1") /\
  giveaways m' `sublist_of` giveaways Cases.manager_two /\
  heap_rel same_record Cases.manager_two m' /\ in_sync m' /\
  (forall rs r, storage m' = Some (Document rs) -> r ∈ rs -> d_messageID r <> Some "m1") /\
  (false = true -> Some Sample.announcement = None).
Proof.
  apply (manager_delete_removes Sample.world (Some "m1") false Cases.manager_two).
  reflexivity.
Defined.

(** ** [reroll] *)

(** X12. [reroll] on a giveaway that has not ended rejects with the
    not-ended message and changes nothing.  When it resolves, the giveaway
    had ended, the winners are distinct members, no more than the count
    asked for (the [winnerCount] of the options when it is given and not 0,
    that of the record otherwise), and the manager is as its fetch of the
    message left it: [reroll] itself writes no file and emits no signal. *)
Theorem reroll_effects
    (w : World) (o : GiveawayRerollOptions) (draws : list nat) (this : nat)
    (m : Manager) (g : Giveaway) :
  heap m !! this = Some g ->
  (ended g = false ->
   reroll w o draws this m = (m, Rejected (msg_not_ended (messageID g)))) /\
  (forall m' winners,
     reroll w o draws this m = (m', Resolved winners) ->
     ended g = true /\ m' = (fetchMessage w this m).1 /\
     exists ws, winners = map Some ws /\ NoDup ws /\
                Z.of_nat (length ws) <= Z.max 0 (roll_amount g (rr_winnerCount o))).
Proof.
  intros Hg. split.
  - intros He. unfold reroll. by rewrite Hg, He.
  - intros m' winners H. unfold reroll in H. rewrite Hg in H.
    destruct (ended g) eqn:He; simpl in H; [|discriminate].
    destruct (bool_decide _); [discriminate|].
    destruct (fetchMessage_this w this m g Hg) as (g1 & Hg1 & Hrec).
    destruct (fetchMessage w this m) as [m1 out]. simpl in *.
    assert (H' : match message g1 with
                 | None => (m1, Rejected (msg_unable_fetch (messageID g1)))
                 | Some _ =>
                     match roll w (defaults m1) g1 (rr_winnerCount o) draws with
                     | Throws _ => (m1, Pending)
                     | Returns winners => (m1, Resolved winners)
                     end
                 end = (m', Resolved winners)).
    { destruct out; [| |discriminate]; by rewrite Hg1 in H. }
    clear H. destruct (message g1); [|discriminate].
    destruct (roll w (defaults m1) g1 (rr_winnerCount o) draws) as [ws0|] eqn:Er;
      [|discriminate].
    inversion H'; subst. split; [done|]. split; [done|].
    destruct (roll_returns_eligible _ _ _ _ _ _ Er) as [el Hel].
    destruct (roll_draws_from_eligible w (defaults m') g1 (rr_winnerCount o) draws el
                _ Hel Er)
      as (ws & -> & _ & Hmax & Hnd & _ & _).
    exists ws.
    split; [done|]. split; [done|].
    assert (Hwc : winnerCount g1 = winnerCount g).
    { unfold record_of in Hrec. destruct g1, g. by inversion Hrec. }
    unfold roll_amount in *. by rewrite <- Hwc.
Qed.

Lemma reroll_effects_witness :
  (ended Sample.finished = false ->
   reroll Sample.world (mkReroll (Some 1)) [2%nat] 0 Sample.manager_ended
   = (Sample.manager_ended, Rejected (msg_not_ended (messageID Sample.finished)))) /\
  (forall m' winners,
     reroll Sample.world (mkReroll (Some 1)) [2%nat] 0 Sample.manager_ended
       = (m', Resolved winners) ->
     ended Sample.finished = true /\
     m' = (fetchMessage Sample.world 0 Sample.manager_ended).1 /\
     exists ws, winners = map Some ws /\ NoDup ws /\
                Z.of_nat (length ws)
                <= Z.max 0 (roll_amount Sample.finished (rr_winnerCount (mkReroll (Some 1))))).
Proof.
  apply (reroll_effects Sample.world (mkReroll (Some 1)) [2%nat] 0
           Sample.manager_ended Sample.finished).
  reflexivity.
Defined.

(** X13. In a reroll started through the manager, the options of the new
    object are the giveaway found, so its [exemptMembers] is that
    giveaway's method: the predicate of the manager's defaults runs inside
    the [try] of the new object as well.  Its [exemptMembers] never fails
    (a failure of either predicate reads as not exempt), and the exemption
    loop of its [roll] always completes on users that are members. *)
Theorem reroll_copy_catches_predicate_errors
    (mo : ManagerDefaults) (g : Giveaway) :
  let copy := new_Giveaway (as_options mo g) in
  (forall member,
     exemptMembers mo copy member
     = Returns (match exemptMembers mo g member with
                | Returns result => result
                | Throws _ => false
                end)) /\
  (forall guild snapshot users,
     Forall (fun u => guild_member guild (u_id u) <> None) snapshot ->
     exists users', drop_exempt mo copy guild snapshot users = Returns users').
Proof.
  intros copy.
  assert (H : forall member,
            exemptMembers mo copy member
            = Returns (match exemptMembers mo g member with
                       | Returns result => result
                       | Throws _ => false
                       end)).
  { intros member. unfold exemptMembers at 1. simpl.
    by destruct (exemptMembers mo g member). }
  split; [done|].
  intros guild snapshot. induction snapshot as [|u rest IH]; intros users Hall.
  - by exists users.
  - apply Forall_cons in Hall as [Hu Hall]. simpl.
    destruct (guild_member guild (u_id u)) as [member|]; [|done].
    rewrite H. by apply IH.
Qed.

Lemma fetchMessage_emitted (w : World) (this : nat) (m : Manager) :
  emitted (fetchMessage w this m).1 = emitted m.
Proof.
  unfold fetchMessage.
  destruct (heap m !! this) as [g|]; [|done].
  destruct (falsy_id _); [done|].
  destruct (get_channel _ _); [|done].
  destruct (fetch_message _ _); simpl; [apply update_fields | done].
Qed.

Lemma reroll_state (w : World) (o : GiveawayRerollOptions) (draws : list nat)
    (this : nat) (m : Manager) :
  (reroll w o draws this m).1 = m \/
  (reroll w o draws this m).1 = (fetchMessage w this m).1.
Proof.
  unfold reroll.
  destruct (heap m !! this) as [g|]; [|by left].
  destruct (negb (ended g)); [by left|].
  destruct (bool_decide _); [by left|].
  destruct (fetchMessage w this m) as [m1 out]. simpl. right.
  destruct out; try done;
    (destruct (heap m1 !! this) as [g1|]; [|done]);
    (destruct (message g1); [|done]);
    by destruct (roll w (defaults m1) g1 (rr_winnerCount o) draws).
Qed.

(** X14. A reroll through the manager works on an object of its own: every
    giveaway object that existed is afterwards exactly as it was, cached
    handle included.  When it resolves, one [giveawayRerolled] signal has
    been emitted, for the new object; otherwise none. *)
Theorem manager_reroll_leaves_objects
    (w : World) (id : option Snowflake) (o : GiveawayRerollOptions)
    (draws : list nat) (m : Manager) :
  (forall l g, heap m !! l = Some g ->
               heap (manager_reroll w id o draws m).1 !! l = Some g) /\
  match (manager_reroll w id o draws m).2 with
  | Resolved _ =>
      exists winners,
        emitted (manager_reroll w id o draws m).1
        = emitted m ++ [giveawayRerolled (length (heap m)) winners]
  | _ => emitted (manager_reroll w id o draws m).1 = emitted m
  end.
Proof.
  unfold manager_reroll.
  destruct (find_giveaway id m) as [l0|]; [|done].
  destruct (heap m !! l0) as [giveawayData|]; [|done].
  set (copy := new_Giveaway _). simpl.
  set (m1 := set_heap (heap m ++ [copy]) m).
  assert (Hold : forall l g, heap m !! l = Some g ->
                   heap (reroll w o draws (length (heap m)) m1).1 !! l = Some g).
  { intros l g Hl.
    assert (Hne : l <> length (heap m)).
    { apply lookup_lt_Some in Hl. lia. }
    assert (H1 : heap m1 !! l = Some g) by (simpl; by apply lookup_app_l_Some).
    destruct (reroll_state w o draws (length (heap m)) m1) as [-> | ->]; [done|].
    by rewrite fetchMessage_other. }
  assert (Hem : emitted (reroll w o draws (length (heap m)) m1).1 = emitted m).
  { destruct (reroll_state w o draws (length (heap m)) m1) as [-> | ->]; [done|].
    by rewrite fetchMessage_emitted. }
  destruct (reroll w o draws (length (heap m)) m1) as [m2 [winners|e|]]; simpl in *.
  - split; [done|]. exists winners. by rewrite Hem.
  - done.
  - done.
Qed.

(** ** The collection never grows outside [start] *)

Section Shrinking.
Variable w : World.

Lemma shrinks_refl m : shrinks m m.
Proof. by unfold shrinks. Qed.

Lemma shrinks_trans m1 m2 m3 : shrinks m1 m2 -> shrinks m2 m3 -> shrinks m1 m3.
Proof. unfold shrinks. intros H12 H23. by etrans. Qed.

Lemma shrinks_same m m' : giveaways m' = giveaways m -> shrinks m m'.
Proof. unfold shrinks. by intros ->. Qed.

Lemma shrinks_update this f m : shrinks m (update this f m).
Proof. apply shrinks_same, update_fields. Qed.

Lemma shrinks_fetchMessage this m : shrinks m (fetchMessage w this m).1.
Proof.
  unfold shrinks.
  destruct (fetchMessage_giveaways w this m) as [-> | (g & _ & ->)];
    [done | apply filter_sublist].
Qed.

Lemma shrinks_end draws this m : shrinks m (end_ w draws this m).1.
Proof.
  unfold end_.
  destruct (heap m !! this) as [g|]; [|apply shrinks_refl].
  destruct (ended g); [apply shrinks_refl|].
  destruct (bool_decide _); [apply shrinks_refl|].
  assert (H : shrinks m (fetchMessage w this (update this (set_ended true) m)).1).
  { eapply shrinks_trans; [apply shrinks_update | apply shrinks_fetchMessage]. }
  destruct (fetchMessage w this _) as [m1 out]. simpl in H.
  destruct out; simpl; try done;
    (destruct (heap m1 !! this) as [g1|]; [|done]);
    (destruct (message g1); [|done]);
    (destruct (roll w (defaults m1) g1 None draws) as [winners|]; [|done]);
    (destruct (ValidEntry w (defaults m1) g1); [|done]);
    by destruct (0 <? length winners)%nat.
Qed.

Lemma shrinks_manager_end draws id m : shrinks m (manager_end w draws id m).1.
Proof.
  unfold manager_end. destruct (find_giveaway id m);
    [apply shrinks_end | apply shrinks_refl].
Qed.

Lemma shrinks_edit o this m : shrinks m (edit w o this m).1.
Proof.
  unfold edit, edit_resume.
  destruct (heap m !! this) as [g|]; [|apply shrinks_refl].
  destruct (ended g); [apply shrinks_refl|].
  destruct (bool_decide _); [apply shrinks_refl|].
  pose proof (shrinks_fetchMessage this m) as H.
  destruct (fetchMessage w this m) as [m1 out]. simpl in H.
  destruct out; simpl; try done;
    (destruct (heap m1 !! this) as [g1|]; [|done]);
    (destruct (message g1); [|done]); simpl;
    (eapply shrinks_trans; [exact H|]);
    apply shrinks_same; simpl; apply update_fields.
Qed.

Lemma shrinks_reroll o draws this m : shrinks m (reroll w o draws this m).1.
Proof.
  destruct (reroll_state w o draws this m) as [-> | ->];
    [apply shrinks_refl | apply shrinks_fetchMessage].
Qed.

Lemma shrinks_manager_reroll id o draws m :
  shrinks m (manager_reroll w id o draws m).1.
Proof.
  unfold manager_reroll.
  destruct (find_giveaway id m) as [l|]; [|apply shrinks_refl].
  destruct (heap m !! l) as [giveawayData|]; [|apply shrinks_refl].
  simpl. set (m1 := set_heap _ m).
  pose proof (shrinks_reroll o draws (length (heap m)) m1) as H.
  destruct (reroll w o draws (length (heap m)) m1) as [m2 [winners|e|]]; done.
Qed.

Lemma shrinks_refresh this m : shrinks m (refresh_serverslist w this m).
Proof.
  unfold refresh_serverslist.
  destruct (heap m !! this) as [g|]; [|apply shrinks_refl].
  assert (H1 : shrinks m (update this (set_serverslist (Some "")) m))
    by apply shrinks_update.
  destruct (serverlink (reqs g)) as [[|link rest]|]; try done.
  by destruct (message g).
Qed.

Lemma shrinks_fold {A : Type} (f : Manager -> A -> Manager) (ls : list A) :
  (forall m l, shrinks m (f m l)) -> forall m, shrinks m (fold_left f ls m).
Proof.
  intros Hf. induction ls as [|l ls IH]; intros m; simpl; [apply shrinks_refl|].
  eapply shrinks_trans; [apply Hf | apply IH].
Qed.

End Shrinking.

Section ShrinkingTicks.
Variable w : World.

Lemma shrinks_after_fetch (this : nat) (m : Manager) (k : Manager -> Manager) :
  (forall m1, shrinks m1 (k m1)) ->
  shrinks m (match fetchMessage w this m with
             | (m1, Pending) => m1
             | (m1, _) => k m1
             end).
Proof.
  intros Hk. pose proof (shrinks_fetchMessage w this m) as H.
  destruct (fetchMessage w this m) as [m1 out]. simpl in H.
  destruct out; try done; by eapply shrinks_trans.
Qed.

Lemma shrinks_updateServerRequirement_each this m :
  shrinks m (updateServerRequirement_each w this m).
Proof.
  unfold updateServerRequirement_each.
  destruct (heap m !! this) as [g|]; [|apply shrinks_refl].
  destruct (ended g); [apply shrinks_refl|].
  destruct (bool_decide _); [apply shrinks_refl|].
  apply (shrinks_after_fetch this m (refresh_serverslist w this)).
  intros m1. apply shrinks_refresh.
Qed.

Lemma shrinks_updateServerRequirement now draws this m :
  shrinks m (updateServerRequirement w now draws this m).
Proof.
  unfold updateServerRequirement.
  destruct (heap m !! this) as [g|]; [|apply shrinks_refl].
  destruct (ended g); [apply shrinks_refl|].
  destruct (bool_decide _); [apply shrinks_refl|].
  destruct (_ <=? 0); [apply shrinks_manager_end|].
  apply (shrinks_after_fetch this m (refresh_serverslist w this)).
  intros m1. apply shrinks_refresh.
Qed.

Lemma shrinks_mark_ended this m1 :
  shrinks m1 (editGiveaway (update this (set_ended true) m1)).
Proof. apply shrinks_same. simpl. apply update_fields. Qed.

Lemma shrinks_checkGiveaway_each now draws this m :
  shrinks m (_checkGiveaway_each w now draws this m).
Proof.
  unfold _checkGiveaway_each.
  destruct (heap m !! this) as [g|]; [|apply shrinks_refl].
  destruct (ended g); [apply shrinks_refl|].
  destruct (threeSecondsRemaining g); [apply shrinks_refl|].
  destruct (bool_decide _); [apply shrinks_refl|].
  destruct (_ <=? 0); [apply shrinks_manager_end|].
  apply (shrinks_after_fetch this m
           (fun m1 => match heap m1 !! this with
                      | None => m1
                      | Some g1 =>
                          match message g1 with
                          | None => editGiveaway (update this (set_ended true) m1)
                          | Some _ => m1
                          end
                      end)).
  intros m1. destruct (heap m1 !! this) as [g1|]; [|apply shrinks_refl].
  destruct (message g1); [apply shrinks_refl | apply shrinks_mark_ended].
Qed.

Lemma shrinks_updateGiveaway now draws this m :
  shrinks m (_updateGiveaway w now draws this m).1.
Proof.
  unfold _updateGiveaway.
  destruct (heap m !! this) as [g|]; [|apply shrinks_refl].
  destruct (ended g); [apply shrinks_refl|].
  destruct (bool_decide _); [apply shrinks_refl|].
  destruct (_ <=? 0).
  { pose proof (shrinks_manager_end w draws (messageID g) m) as H.
    by destruct (manager_end w draws (messageID g) m) as [m1 [?|?|]]. }
  pose proof (shrinks_fetchMessage w this m) as H.
  destruct (fetchMessage w this m) as [m1 out]. simpl in H.
  destruct out; simpl; try done;
    (destruct (heap m1 !! this) as [g1|]; [|done]);
    (destruct (message g1);
     [done | eapply shrinks_trans; [exact H | apply shrinks_mark_ended]]).
Qed.

Lemma shrinks_lastGiveaway_each now draws this m :
  shrinks m (lastGiveaway_each w now draws this m).
Proof.
  unfold lastGiveaway_each.
  destruct (heap m !! this) as [g|]; [|apply shrinks_refl].
  destruct (ended g); [apply shrinks_refl|].
  destruct (bool_decide _); [apply shrinks_refl|].
  destruct (_ <=? 0); [apply shrinks_manager_end|].
  apply (shrinks_after_fetch this m
    (fun m1 =>
       let m2 := if remainingTime g now <? 4000
                 then update this (set_threeSecondsRemaining true) m1 else m1 in
       match heap m2 !! this with
       | None => m2
       | Some g2 =>
           match message g2 with
           | None => m2
           | Some _ =>
               if (threeSecondsRemaining g2 && negb (threeSecondsRemaining2 g2))%bool
               then
                 let m3 := editGiveaway
                             (update this (set_threeSecondsRemaining2 true) m2) in
                 if ended g2 then m3
                 else
                   match embed g2 with
                   | Throws _ => m3
                   | Returns _ => (manager_end w draws (messageID g2) m3).1
                   end
               else m2
           end
       end)).
  intros m1. cbv zeta.
  set (m2 := if remainingTime g now <? 4000 then _ else m1).
  assert (H2 : shrinks m1 m2).
  { subst m2. destruct (_ <? 4000); [apply shrinks_update | apply shrinks_refl]. }
  destruct (heap m2 !! this) as [g2|]; [|done].
  destruct (message g2); [|done].
  destruct (_ && _)%bool; [|done].
  assert (H3 : shrinks m1 (editGiveaway (update this (set_threeSecondsRemaining2 true) m2))).
  { eapply shrinks_trans; [exact H2|]. apply shrinks_same. simpl. apply update_fields. }
  destruct (ended g2); [done|].
  destruct (embed g2); [|done].
  eapply shrinks_trans; [exact H3 | apply shrinks_manager_end].
Qed.

Lemma shrinks_run (op : Operation) (m : Manager) : shrinks m (run w op m).
Proof.
  destruct op; simpl.
  - unfold manager_edit. destruct (find_giveaway id m);
      [apply shrinks_edit | apply shrinks_refl].
  - apply shrinks_edit.
  - apply shrinks_manager_end.
  - apply shrinks_end.
  - apply shrinks_manager_reroll.
  - apply shrinks_reroll.
  - unfold _checkGiveaway. apply shrinks_fold.
    intros m' l. apply shrinks_checkGiveaway_each.
  - unfold lastGiveaway. apply shrinks_fold.
    intros m' l. apply shrinks_lastGiveaway_each.
  - unfold _updateServerRequirement. apply shrinks_fold.
    intros m' l. apply shrinks_updateServerRequirement_each.
  - apply shrinks_updateGiveaway.
Qed.

End ShrinkingTicks.

(** X15. No sequence of edits, ends, rerolls and scheduler ticks, whatever
    the platform answers, adds a giveaway to the manager's collection or
    changes the order of those it holds: the collection afterwards is a
    sub-list of the collection before. *)
Theorem collection_only_shrinks (steps : list (World * Operation)) (m : Manager) :
  giveaways (run_all steps m) `sublist_of` giveaways m.
Proof.
  revert m. induction steps as [|[w op] steps IH]; intros m; [done|].
  simpl. etrans; [apply IH | apply shrinks_run].
Qed.

(** ** [start]: validation *)

Lemma truthyS_false (s : string) : truthyS s = false <-> s = "".
Proof. unfold truthyS. rewrite negb_false_iff. apply String.eqb_eq. Qed.

Lemma not_a_number_true (x : option JsNumber) :
  not_a_number x = true <-> x = None \/ x = Some (Num 0) \/ x = Some NaN.
Proof.
  unfold not_a_number, falsy_number, isNaN, truthyZ. split.
  - destruct x as [[n|]|]; simpl; [|by right; right | by left].
    rewrite orb_false_r, negb_involutive. intros ->%Z.eqb_eq. right. by left.
  - by intros [->|[->| ->]].
Qed.

Lemma falsy_id_true (x : option string) :
  falsy_id x = true <-> x = None \/ x = Some "".
Proof.
  unfold falsy_id. split.
  - destruct x as [s|]; [|by left].
    rewrite negb_true_iff, truthyS_false. intros ->. by right.
  - by intros [->| ->].
Qed.

Lemma falsy_id_false (x : option string) :
  falsy_id x = false <-> exists s, x = Some s /\ s <> "".
Proof.
  split.
  - intros H. destruct x as [s|]; [|discriminate]. exists s. split; [done|].
    intros ->. discriminate.
  - intros (s & -> & Hs). apply not_true_iff_false. intros H.
    apply falsy_id_true in H as [H|H]; congruence.
Qed.

(** X16. For options whose time and winner count are numbers, [start]
    rejects exactly when the manager is not ready, the channel is missing or
    has an empty id, the time or the winner count is missing, 0 or [NaN], or
    the prize is missing or empty; a rejected [start] leaves the manager as
    it was (no object, no entry in the collection, no write). *)
Theorem start_rejects_exactly
    (w : World) (now1 now2 now3 : Z) (posted : option Snowflake)
    (draws : list nat) (dm : GiveawayMessages) (channel : option TextChannel)
    (o : GiveawayStartOptions) (m : Manager) :
  let r := start w now1 now2 now3 posted draws dm channel o m in
  ((exists reason, r.2 = Rejected reason) <-> start_refused channel o m) /\
  ((exists reason, r.2 = Rejected reason) -> r.1 = m).
Proof.
  unfold start, start_refused.
  destruct (ready m) eqn:Er; simpl;
    [|split; [split; [by left | by eexists] | done]].
  destruct channel as [ch|];
    [|split; [split; [intros _; right; by left | by eexists] | done]].
  destruct (truthyS (ch_id ch)) eqn:Ec; simpl;
    [|split; [split; [intros _; right; right; left; exists ch;
                      by rewrite <- truthyS_false
                     | by eexists] | done]].
  assert (Hch : ~ exists ch', Some ch = Some ch' /\ ch_id ch' = "").
  { intros (ch' & Heq & Hid). inversion Heq; subst ch'.
    apply truthyS_false in Hid. congruence. }
  destruct (not_a_number (so_time o)) eqn:Et.
  { apply not_a_number_true in Et.
    split; [split; [intros _; tauto | by eexists] | done]. }
  destruct (falsy_id (so_prize o)) eqn:Ep.
  { apply falsy_id_true in Ep.
    split; [split; [intros _; tauto | by eexists] | done]. }
  destruct (not_a_number (so_winnerCount o)) eqn:Ew.
  { apply not_a_number_true in Ew.
    split; [split; [intros _; tauto | by eexists] | done]. }
  apply not_a_number_false in Et as (time & Et & Ht).
  apply not_a_number_false in Ew as (wc & Ew & Hw).
  apply falsy_id_false in Ep as (p & Ep & Hp).
  simpl. split; [split|]; [by intros [reason H] | | by intros [reason H]].
  intros [H|[H|[H|[H|[H|[H|[H|[H|[H|[H|H]]]]]]]]]]; try done; congruence.
Qed.

(** ** [start]: what a call leaves *)

Lemma heap_update_lookup (this l : nat) (f : Giveaway -> Giveaway) (m : Manager) :
  heap (update this f m) !! l
  = if decide (l = this) then f <$> heap m !! l else heap m !! l.
Proof.
  destruct (decide (l = this)) as [->|Hne]; [|by apply heap_update_ne].
  destruct (heap m !! this) as [g|] eqn:Hg.
  - by rewrite (heap_update_eq this f m g Hg).
  - unfold update. by rewrite Hg, Hg.
Qed.

(** X17. [start] never resolves: right after building the record it calls
    [giveaway.winningChance()], which class [Giveaway] does not define.
    Whatever it is given, it announces and registers nothing: the
    collection, the storage file and the emitted signals are as before, and
    so is every object that existed. *)
Theorem start_never_registers
    (w : World) (now1 now2 now3 : Z) (posted : option Snowflake)
    (draws : list nat) (dm : GiveawayMessages) (channel : option TextChannel)
    (o : GiveawayStartOptions) (m : Manager) :
  let r := start w now1 now2 now3 posted draws dm channel o m in
  (forall l, r.2 <> Resolved l) /\
  giveaways r.1 = giveaways m /\ storage r.1 = storage m /\
  emitted r.1 = emitted m /\ ready r.1 = ready m /\
  forall l g, heap m !! l = Some g -> heap r.1 !! l = Some g.
Proof.
  unfold start.
  destruct (negb (ready m)); [done|].
  destruct channel as [ch|]; [|done].
  destruct (negb (truthyS (ch_id ch))); [done|].
  destruct (not_a_number (so_time o)); [done|].
  destruct (falsy_id (so_prize o)); [done|].
  destruct (not_a_number (so_winnerCount o)); [done|].
  simpl. repeat split; try done.
  intros l g Hl. by apply lookup_app_l_Some.
Qed.

(** ** [_init] and a storage file that cannot be used *)



(** ** The countdown tick when the announcement is gone *)

(** X20. When the countdown tick reaches a live giveaway with time left
    whose announcement cannot be fetched any more, the giveaway (with every
    other one carrying its message id) leaves the collection and the storage
    file is rewritten without it.  If no message handle was cached the
    object is also marked ended; if one was cached the object is not
    touched at all: it stays live, outside the collection. *)
Theorem check_tick_prunes_deleted_announcement
    (w : World) (now : Z) (draws : list nat) (this : nat) (m : Manager)
    (g : Giveaway) (c : TextChannel) (id : Snowflake) :
  heap m !! this = Some g -> ended g = false -> threeSecondsRemaining g = false ->
  get_channel w (channelID g) = Some c -> 0 < remainingTime g now ->
  messageID g = Some id -> truthyS id = true -> fetch_message c id = None ->
  let m' := _checkGiveaway_each w now draws this m in
  (this ∉ giveaways m') /\
  (forall l gl, l ∈ giveaways m' -> heap m' !! l = Some gl -> messageID gl <> Some id) /\
  in_sync m' /\
  (message g = None -> heap m' !! this = Some (set_ended true g)) /\
  (message g <> None -> heap m' = heap m).
Proof.
  intros Hg He H3 Hc Hrt Hid Ht Hf. unfold _checkGiveaway_each.
  rewrite Hg, He, H3, Hc. simpl.
  rewrite (proj2 (Z.leb_gt _ 0)) by lia.
  rewrite (fetchMessage_unfetchable w this m g c id Hg Hid Ht Hc Hf).
  set (m1 := deleteGiveaway (set_giveaways (without_messageID (Some id) m) m)).
  change (heap m1 !! this) with (heap m !! this). rewrite Hg.
  assert (Hnot : this ∉ without_messageID (Some id) m).
  { intros Hin. apply without_messageID_spec in Hin as (_ & g' & Hg' & Hne).
    congruence. }
  assert (Hothers : forall l gl (h : list Giveaway),
            (forall gl', h !! l = Some gl -> heap m !! l = Some gl' ->
                         messageID gl = messageID gl') ->
            l ∈ without_messageID (Some id) m -> h !! l = Some gl ->
            messageID gl <> Some id).
  { intros l gl h Hsame Hin Hl.
    apply without_messageID_spec in Hin as (_ & g' & Hg' & Hne).
    by rewrite (Hsame g' Hl Hg'). }
  destruct (message g) as [msg|] eqn:Hm; cbv zeta.
  - split; [done|]. split; [|split; [done|]; split; [done|done]].
    intros l gl Hin Hl. refine (Hothers l gl (heap m) _ Hin Hl).
    intros gl' H1 H2. congruence.
  - split; [simpl; by destruct (update_fields this (set_ended true) m1) as (-> & _)|].
    split; [|split; [done|]; split; [|done]].
    + simpl. destruct (update_fields this (set_ended true) m1) as (-> & _). simpl.
      intros l gl Hin Hl. refine (Hothers l gl _ _ Hin Hl).
      intros gl' H1 H2. rewrite heap_update_lookup in H1. simpl in H1.
      destruct (decide (l = this)) as [->|]; [|congruence].
      rewrite H2 in H1. simpl in H1. by inversion H1.
    + intros _. simpl. apply heap_update_eq. exact Hg.
Qed.

Lemma check_tick_prunes_deleted_announcement_witness :
  let m' := _checkGiveaway_each Sample.world_gone 5000 [] 0 Sample.manager_fetched in
  (0%nat ∉ giveaways m') /\
  (forall l gl, l ∈ giveaways m' -> heap m' !! l = Some gl -> messageID gl <> Some "m1") /\
  in_sync m' /\
  (message Sample.fetched = None -> heap m' !! 0%nat = Some (set_ended true Sample.fetched)) /\
  (message Sample.fetched <> None -> heap m' = heap Sample.manager_fetched).
Proof.
  apply (check_tick_prunes_deleted_announcement Sample.world_gone 5000 [] 0
           Sample.manager_fetched Sample.fetched Sample.channel_gone "m1");
    reflexivity.
Defined.

(** ** The requirement text *)

Lemma string_app_assoc' (a b c : string) : ((a ++ b) ++ c = a ++ (b ++ c))%string.
Proof.
  induction a as [|x a IH]; [done|].
  change (String x ((a ++ b) ++ c) = String x (a ++ (b ++ c)))%string. by f_equal.
Qed.

Lemma string_app_nil_r (a : string) : (a ++ "" = a)%string.
Proof.
  induction a as [|x a IH]; [done|].
  change (String x (a ++ "") = String x a)%string. by f_equal.
Qed.

Lemma add_servers_resolved (w : World) (links : list string) (invites : list Invite) :
  Forall2 (fun link invite => fetchInvite w link = Some invite) links invites ->
  forall k text,
    add_servers w links (S k) text
    = (text ++ fold_right (fun invite acc =>
                 String (Ascii.ascii_of_nat 10) "" ++ server_line invite ++ acc)
               "" invites)%string.
Proof.
  induction 1 as [|link invite links invites Hl _ IH]; intros k text.
  - simpl. by rewrite string_app_nil_r.
  - cbn [add_servers Nat.eqb fold_right]. rewrite Hl, IH.
    by rewrite !string_app_assoc'.
Qed.

Lemma concat_lines (nl x : string) (rest : list string) :
  String.concat nl (x :: rest)
  = (x ++ fold_right (fun y acc => nl ++ y ++ acc) "" rest)%string.
Proof.
  revert x. induction rest as [|y rest IH]; intros x.
  - simpl. by rewrite string_app_nil_r.
  - change (String.concat nl (x :: y :: rest))
      with (x ++ nl ++ String.concat nl (y :: rest))%string.
    by rewrite IH.
Qed.

Lemma add_servers_failed (w : World) (links : list string) :
  Forall (fun link => fetchInvite w link = None) links ->
  forall text,
    add_servers w links 0 text
    = (text ++ fold_right (fun _ acc => server_error_line ++ acc) "" links)%string.
Proof.
  induction 1 as [|link links Hl _ IH]; intros text.
  - simpl. by rewrite string_app_nil_r.
  - cbn [add_servers Nat.eqb fold_right]. rewrite Hl, IH.
    by rewrite !string_app_assoc'.
Qed.

Lemma add_servers_text (w : World) (settled : list string) :
  (forall invites,
     Forall2 (fun link invite => fetchInvite w link = Some invite) settled invites ->
     add_servers w settled 0 ""
     = String.concat (String (Ascii.ascii_of_nat 10) "") (map server_line invites)) /\
  (Forall (fun link => fetchInvite w link = None) settled ->
   add_servers w settled 0 ""
   = fold_right (fun _ acc => server_error_line ++ acc)%string "" settled).
Proof.
  split.
  - intros invites H. destruct H as [|link invite links invites Hl H]; [done|].
    cbn [add_servers Nat.eqb]. rewrite Hl.
    rewrite (add_servers_resolved w links invites H).
    change (map server_line (invite :: invites))
      with (server_line invite :: map server_line invites).
    rewrite concat_lines.
    change ("" ++ "" ++ server_line invite)%string with (server_line invite).
    f_equal.
    clear. induction invites as [|i invites IH]; simpl; [done | by rewrite IH].
  - intros H. by rewrite (add_servers_failed w settled H).
Qed.

(** X21. The requirement text of a giveaway after the invite lookups of
    one refresh were answered, the refresh having emptied the text: when
    every lookup resolved, it is one line per invite, in the order in which
    the lookups were answered, joined by line feeds; when none resolved, it
    is the warning repeated once per lookup with nothing in between, since
    the line count that decides the separator only grows on a lookup that
    resolves.  The text is written on the object only: the storage file and
    the collection are as before. *)
Theorem invites_settled_text
    (w : World) (settled : list string) (this : nat) (m : Manager) (g : Giveaway) :
  heap m !! this = Some g -> serverslist (reqs g) = Some "" ->
  let m' := invites_settled w settled this m in
  storage m' = storage m /\ giveaways m' = giveaways m /\
  (forall invites,
     Forall2 (fun link invite => fetchInvite w link = Some invite) settled invites ->
     heap m' !! this
     = Some (set_serverslist
               (Some (String.concat (String (Ascii.ascii_of_nat 10) "")
                        (map server_line invites))) g)) /\
  (Forall (fun link => fetchInvite w link = None) settled ->
   heap m' !! this
   = Some (set_serverslist
             (Some (fold_right (fun _ acc => server_error_line ++ acc)%string ""
                      settled)) g)).
Proof.
  intros Hg Hs. unfold invites_settled. rewrite Hg, Hs. simpl.
  destruct (add_servers_text w settled) as [Hall Hnone].
  destruct (update_fields this (set_serverslist (Some (add_servers w settled 0 ""))) m)
    as (HG & HS & _).
  split; [done|]. split; [done|]. split.
  - intros invites H. rewrite <- (Hall invites H). by apply heap_update_eq.
  - intros H. rewrite <- (Hnone H). by apply heap_update_eq.
Qed.

Lemma invites_settled_text_witness :
  let m' := invites_settled Sample.world ["a"; "b"] 0 Cases.manager_refreshed in
  storage m' = storage Cases.manager_refreshed /\
  giveaways m' = giveaways Cases.manager_refreshed /\
  (forall invites,
     Forall2 (fun link invite => fetchInvite Sample.world link = Some invite)
       ["a"; "b"] invites ->
     heap m' !! 0%nat
     = Some (set_serverslist
               (Some (String.concat (String (Ascii.ascii_of_nat 10) "")
                        (map server_line invites)))
               (set_serverslist (Some "") Sample.fetched))) /\
  (Forall (fun link => fetchInvite Sample.world link = None) ["a"; "b"] ->
   heap m' !! 0%nat
   = Some (set_serverslist
             (Some (fold_right (fun _ acc => server_error_line ++ acc)%string ""
                      ["a"; "b"]))
             (set_serverslist (Some "") Sample.fetched))).
Proof.
  apply (invites_settled_text Sample.world ["a"; "b"] 0 Cases.manager_refreshed
           (set_serverslist (Some "") Sample.fetched)); reflexivity.
Defined.

(** ** Unknown message ids *)

(** X22. When no giveaway of the collection carries the message id given,
    [end], [edit], [reroll], [delete], [winningChance] and [ValidEntries] of
    the manager all reject with the not-found message, and the manager is
    left as it was. *)
Theorem unknown_id_rejected
    (w : World) (id : option Snowflake) (m : Manager) :
  (forall l g, l ∈ giveaways m -> heap m !! l = Some g -> messageID g <> id) ->
  (forall draws, manager_end w draws id m = (m, Rejected (msg_not_found id))) /\
  (forall o, manager_edit w id o m = (m, Rejected (msg_not_found id))) /\
  (forall o draws, manager_reroll w id o draws m = (m, Rejected (msg_not_found id))) /\
  (forall keep, manager_delete w id keep m = (m, Rejected (msg_not_found id))) /\
  manager_winningChance w id m = Rejected (msg_not_found id) /\
  manager_ValidEntries w id m = Rejected (msg_not_found id).
Proof.
  intros H. apply find_giveaway_None in H.
  unfold manager_end, manager_edit, manager_reroll, manager_delete,
    manager_winningChance, manager_ValidEntries.
  by rewrite H.
Qed.

Lemma unknown_id_rejected_witness :
  (forall draws, manager_end Sample.world draws (Some "m9") Cases.manager_two
                 = (Cases.manager_two, Rejected (msg_not_found (Some "m9")))) /\
  (forall o, manager_edit Sample.world (Some "m9") o Cases.manager_two
             = (Cases.manager_two, Rejected (msg_not_found (Some "m9")))) /\
  (forall o draws, manager_reroll Sample.world (Some "m9") o draws Cases.manager_two
                   = (Cases.manager_two, Rejected (msg_not_found (Some "m9")))) /\
  (forall keep, manager_delete Sample.world (Some "m9") keep Cases.manager_two
                = (Cases.manager_two, Rejected (msg_not_found (Some "m9")))) /\
  manager_winningChance Sample.world (Some "m9") Cases.manager_two
    = Rejected (msg_not_found (Some "m9")) /\
  manager_ValidEntries Sample.world (Some "m9") Cases.manager_two
    = Rejected (msg_not_found (Some "m9")).
Proof.
  apply (unknown_id_rejected Sample.world (Some "m9") Cases.manager_two).
  intros l g Hl Hg.
  apply list_elem_of_In in Hl. simpl in Hl.
  destruct Hl as [<-|[<-|[]]]; simpl in Hg; inversion Hg; discriminate.
Defined.

(** ** The bot policy *)

Lemma eligible_bot_policy (w : World) (mo : ManagerDefaults) (g : Giveaway)
    (el : Collection) :
  eligible w mo g = Returns el ->
  Forall (fun u => Some (u_bot u) = botsCanWin mo g) el.
Proof.
  unfold eligible. intros H.
  destruct (message g) as [msg|]; [|by inversion H].
  destruct (find_reaction msg (reaction mo g)) as [r|]; [|by inversion H].
  destruct (get_channel w (channelID g)) as [c|]; [|discriminate].
  destruct (drop_exempt _ _ _ _ _) as [users'|] eqn:Ed; [|discriminate].
  destruct (exemptPermissions mo g) as [perms|];
    [|destruct users'; [by inversion H | discriminate]].
  inversion H; subst el. apply Forall_forall. intros u Hu.
  apply elem_of_filter_bool in Hu as [Hu _].
  apply drop_exempt_sublist, sublist_submseteq in Ed.
  apply (elem_of_submseteq _ _ _ Hu) in Ed.
  apply elem_of_filter_bool in Ed as [Ed _].
  apply elem_of_filter_bool in Ed as [Ed _].
  apply elem_of_filter_bool in Ed as [_ Ed].
  by apply bool_decide_eq_true in Ed.
Qed.

(** X23. Every eligible user has a bot flag equal to [botsCanWin], the
    option of the record or else the default of the manager.  Hence, when the
    manager's default is [true], every giveaway can be won by bots only,
    whatever its own option says ([false || true] is [true]); and when
    neither the record (with a truthy value) nor the manager sets it, nobody
    is eligible. *)
Theorem bot_policy_of_eligible
    (w : World) (mo : ManagerDefaults) (g : Giveaway) (el : Collection) :
  eligible w mo g = Returns el ->
  Forall (fun u => Some (u_bot u) = botsCanWin mo g) el /\
  (def_botsCanWin mo = Some true -> Forall (fun u => u_bot u = true) el) /\
  (def_botsCanWin mo = None -> d_botsCanWin (options g) <> Some true -> el = []).
Proof.
  intros H. pose proof (eligible_bot_policy w mo g el H) as Hall.
  split; [done|]. split.
  - intros Hd. eapply Forall_impl; [exact Hall|]. intros u Hu. simpl in Hu.
    unfold botsCanWin, js_or, id_bool in Hu. rewrite Hd in Hu.
    destruct (d_botsCanWin (options g)) as [[|]|]; by inversion Hu.
  - intros Hd Hr. destruct el as [|u el]; [done|]. exfalso.
    apply Forall_cons in Hall as [Hu _].
    unfold botsCanWin, js_or, id_bool in Hu. rewrite Hd in Hu.
    destruct (d_botsCanWin (options g)) as [[|]|]; by inversion Hu.
Qed.

Lemma bot_policy_of_eligible_witness :
  let el := [mkUser "1" false; mkUser "2" false; mkUser "3" false] in
  Forall (fun u => Some (u_bot u) = botsCanWin Sample.manager_defaults Sample.fetched) el /\
  (def_botsCanWin Sample.manager_defaults = Some true ->
   Forall (fun u => u_bot u = true) el) /\
  (def_botsCanWin Sample.manager_defaults = None ->
   d_botsCanWin (options Sample.fetched) <> Some true -> el = []).
Proof.
  apply (bot_policy_of_eligible Sample.world Sample.manager_defaults Sample.fetched).
  reflexivity.
Defined.

(** ** The final countdown *)

(** X24. The one-second tick on a live giveaway whose announcement can be
    fetched: with 4 seconds or more left and the countdown not yet entered,
    it only caches the message handle; with less than 4 seconds left it sets
    both final-countdown flags, saves, and stops there -- rendering the
    countdown calls [giveaway.winningChance()], which class [Giveaway] does
    not define, so this tick never ends the giveaway: the record is still
    live, with its terms, no signal is emitted, and from then on the
    countdown tick leaves the giveaway alone. *)
Theorem last_tick_final_countdown
    (w : World) (now : Z) (draws : list nat) (this : nat) (m : Manager)
    (g : Giveaway) (c : TextChannel) (id : Snowflake) (msg : Message) :
  heap m !! this = Some g -> ended g = false ->
  get_channel w (channelID g) = Some c -> 0 < remainingTime g now ->
  messageID g = Some id -> truthyS id = true -> fetch_message c id = Some msg ->
  let m' := lastGiveaway_each w now draws this m in
  (4000 <= remainingTime g now -> threeSecondsRemaining g = false ->
   m' = update this (set_message (Some msg)) m) /\
  (remainingTime g now < 4000 -> threeSecondsRemaining2 g = false ->
   in_sync m' /\ emitted m' = emitted m /\ giveaways m' = giveaways m /\
   (exists g', heap m' !! this = Some g' /\ ended g' = false /\
               threeSecondsRemaining g' = true /\ threeSecondsRemaining2 g' = true /\
               message g' = Some msg /\ terms g' = terms g) /\
   forall w' now' draws', _checkGiveaway_each w' now' draws' this m' = m').
Proof.
  intros Hg He Hc Hrt Hid Ht Hf. unfold lastGiveaway_each.
  rewrite Hg, He, Hc. simpl.
  rewrite (proj2 (Z.leb_gt _ 0)) by lia.
  assert (Hfm : fetchMessage w this m
                = (update this (set_message (Some msg)) m, Resolved msg)).
  { unfold fetchMessage. rewrite Hg, Hid. simpl. rewrite Ht. simpl.
    by rewrite Hc, Hf. }
  rewrite Hfm. set (m1 := update this (set_message (Some msg)) m).
  assert (Hg1 : heap m1 !! this = Some (set_message (Some msg) g))
    by (by apply heap_update_eq).
  split.
  - intros Hge H3. rewrite (proj2 (Z.ltb_ge _ 4000)) by lia.
    rewrite Hg1. simpl. by rewrite H3.
  - intros Hlt H32. rewrite (proj2 (Z.ltb_lt _ 4000)) by lia.
    set (m2 := update this (set_threeSecondsRemaining true) m1).
    assert (Hg2 : heap m2 !! this
                  = Some (set_threeSecondsRemaining true (set_message (Some msg) g)))
      by (by apply heap_update_eq).
    rewrite Hg2. simpl. rewrite H32, He. simpl.
    set (m3 := editGiveaway (update this (set_threeSecondsRemaining2 true) m2)).
    set (g3 := set_threeSecondsRemaining2 true
                 (set_threeSecondsRemaining true (set_message (Some msg) g))).
    assert (Hg3 : heap m3 !! this = Some g3).
    { subst m3. rewrite writeAll_heap. by apply heap_update_eq. }
    split; [done|]. split; [|split; [|split]].
    + subst m3 m2 m1. simpl.
      destruct (update_fields this (set_threeSecondsRemaining2 true)
                  (update this (set_threeSecondsRemaining true)
                     (update this (set_message (Some msg)) m))) as (_ & _ & _ & -> & _).
      destruct (update_fields this (set_threeSecondsRemaining true)
                  (update this (set_message (Some msg)) m)) as (_ & _ & _ & -> & _).
      by destruct (update_fields this (set_message (Some msg)) m) as (_ & _ & _ & -> & _).
    + subst m3 m2 m1. simpl.
      destruct (update_fields this (set_threeSecondsRemaining2 true)
                  (update this (set_threeSecondsRemaining true)
                     (update this (set_message (Some msg)) m))) as (-> & _).
      destruct (update_fields this (set_threeSecondsRemaining true)
                  (update this (set_message (Some msg)) m)) as (-> & _).
      by destruct (update_fields this (set_message (Some msg)) m) as (-> & _).
    + exists g3. split; [done|]. subst g3. by destruct g.
    + intros w' now' draws'. unfold _checkGiveaway_each. rewrite Hg3.
      subst g3. simpl. by rewrite He.
Qed.

Lemma last_tick_final_countdown_witness :
  let m' := lastGiveaway_each Sample.world 9000 [1%nat] 0 Sample.manager in
  (4000 <= remainingTime Sample.fresh 9000 -> threeSecondsRemaining Sample.fresh = false ->
   m' = update 0 (set_message (Some Sample.announcement)) Sample.manager) /\
  (remainingTime Sample.fresh 9000 < 4000 -> threeSecondsRemaining2 Sample.fresh = false ->
   in_sync m' /\ emitted m' = emitted Sample.manager /\
   giveaways m' = giveaways Sample.manager /\
   (exists g', heap m' !! 0%nat = Some g' /\ ended g' = false /\
               threeSecondsRemaining g' = true /\ threeSecondsRemaining2 g' = true /\
               message g' = Some Sample.announcement /\ terms g' = terms Sample.fresh) /\
   forall w' now' draws', _checkGiveaway_each w' now' draws' 0 m' = m').
Proof.
  apply (last_tick_final_countdown Sample.world 9000 [1%nat] 0 Sample.manager
           Sample.fresh Sample.channel "m1" Sample.announcement); reflexivity.
Defined.
